(** * Olive render backend: the node evaluation worker and the still-image decoder

    A shallow embedding of
    - [src/app/render/backend/renderworker.cpp] (class [RenderWorker]) and
    - [src/app/codec/oiio/oiiodecoder.cpp] (class [OIIODecoder]),
    with the properties of the evaluation engine proved over it.

    Conventions.
    - A C++ [int] is a [Z] with the 32-bit wrap-around written out ([wrap32]).
    - A nullable pointer ([StreamPtr], [DecoderPtr], [FramePtr]) is an [option].
    - A raw pointer used as a key ([Stream*]) is the address of the object,
      a [nat]; the null pointer is [None].
    - Member functions of the worker that read or write its fields, the shared
      decoder cache or emit a signal are computations in the state monad [M].
    - A call that the C++ standard leaves undefined (a null dereference)
      yields [None] in the decoder, whose functions return [option]. *)

From Stdlib Require Import ZArith QArith Ascii String List Bool Lia.
From stdpp Require Import base option gmap strings list.

Local Open Scope Z_scope.

(** ** Machine integers *)

Definition int_min : Z := - 2 ^ 31.
Definition int_max : Z := 2 ^ 31 - 1.

Definition is_int (z : Z) : Prop := int_min <= z <= int_max.

(** Two's complement reduction of a mathematical integer to an [int]. *)
Definition wrap32 (z : Z) : Z := (z + 2 ^ 31) mod 2 ^ 32 - 2 ^ 31.

(** [a / b] on [int]: the quotient truncated towards zero.  The source
    divides without a check; a zero divisor is outside the language's defined
    behaviour and is given the value of [Z.quot] here. *)
Definition int_div (a b : Z) : Z := wrap32 (Z.quot a b).

(** ** Time *)

(** [rational]: exact fractions.  The worker only passes times around and
    builds the constant [0]. *)
Definition rational : Type := Q.

Definition rational_of_int (n : Z) : rational := Qmake n 1.

Record TimeRange : Type := mkTimeRange {
  range_in : rational;
  range_out : rational
}.

(** ** Footage and streams *)

Record Footage : Type := mkFootage {
  filename : string;
  footage_decoder : string   (* Footage::decoder(): the decoder's id *)
}.

Record Stream : Type := mkStream {
  stream_addr : nat;         (* the object's identity, what [StreamPtr::get()] compares *)
  footage : Footage;
  index : Z
}.

Definition StreamPtr : Type := option Stream.

(** [stream.get()]: the raw pointer used as the cache key. *)
Definition StreamPtr_get (stream : StreamPtr) : option nat :=
  stream_addr <$> stream.

(** ** Decoder interface

    [Decoder::RetrieveState] and the virtual functions of [Decoder] that the
    worker calls. *)

(** Modelled from the spec: the enumeration is declared in codec/decoder.h,
    which is not among the sources; the decoder interface of the spec lists
    the three states NotReady, Ready and FailedToOpen. *)
Inductive RetrieveState : Type :=
  | kNotReady
  | kReady
  | kFailedToOpen.

#[global] Instance RetrieveState_eq_dec : EqDecision RetrieveState.
Proof. solve_decision. Defined.

(** ** The still-image decoder *)

Module OIIO.

(** OIIO::TypeDesc base types. *)
Inductive TypeDesc : Type :=
  | UNKNOWN | UINT8 | INT8 | UINT16 | INT16 | UINT32 | INT32
  | HALF | FLOAT | DOUBLE.

Definition TypeDesc_eqb (a b : TypeDesc) : bool :=
  match a, b with
  | UNKNOWN, UNKNOWN | UINT8, UINT8 | INT8, INT8 | UINT16, UINT16
  | INT16, INT16 | UINT32, UINT32 | INT32, INT32 | HALF, HALF
  | FLOAT, FLOAT | DOUBLE, DOUBLE => true
  | _, _ => false
  end.

Record ImageSpec : Type := mkImageSpec {
  spec_width : Z;
  spec_height : Z;
  nchannels : Z;
  format : TypeDesc
}.

Inductive PixelFormat : Type :=
  | PIX_FMT_INVALID
  | PIX_FMT_RGB8 | PIX_FMT_RGBA8
  | PIX_FMT_RGB16U | PIX_FMT_RGBA16U
  | PIX_FMT_RGB16F | PIX_FMT_RGBA16F
  | PIX_FMT_RGB32F | PIX_FMT_RGBA32F.

(** An open [OIIO::ImageInput]: its spec and the file it reads. *)
Record ImageInput : Type := mkImageInput {
  input_spec : ImageSpec;
  input_file : string
}.

(** Pixel storage is opaque to the decoder's control flow. *)
Record ImageBuf (Pixels : Type) : Type := mkImageBuf {
  buf_spec : ImageSpec;
  localpixels : Pixels
}.
Arguments mkImageBuf {Pixels}.
Arguments buf_spec {Pixels}.
Arguments localpixels {Pixels}.

Record Frame (Pixels : Type) : Type := mkFrame {
  frame_width : Z;
  frame_height : Z;
  frame_format : PixelFormat;
  frame_data : option Pixels
}.
Arguments mkFrame {Pixels}.
Arguments frame_width {Pixels}.
Arguments frame_height {Pixels}.
Arguments frame_format {Pixels}.
Arguments frame_data {Pixels}.

(** The image library, the file system it reads, and the declarations of
    common/define.h, render/pixelformat.h and codec/frame.h that the
    decoder is compiled against. *)
Class Library : Type := {
  Pixels : Type;
  ImageInput_open : string -> option ImageInput;
  read_image : ImageInput -> TypeDesc -> Pixels;
  ImageBufAlgo_resize : ImageSpec -> Pixels -> ImageBuf Pixels -> bool * Pixels;
  Frame_allocate : Z -> Z -> PixelFormat -> Pixels;
  kRGBAChannels : Z;
  GetOIIOTypeDesc : PixelFormat -> TypeDesc
}.

Section Decoder.

Context {L : Library}.

Definition FramePtr : Type := option (Frame Pixels).

(** The fields of [OIIODecoder], with [stream_] and [open_] inherited from
    [Decoder]. *)
Record OIIODecoder : Type := mkOIIODecoder {
  stream_ : StreamPtr;
  open_ : bool;
  image_ : option ImageInput;
  buffer_ : option (ImageBuf Pixels);
  width_ : Z;
  height_ : Z;
  is_rgba_ : bool;
  pix_fmt_ : PixelFormat;
  type_ : TypeDesc
}.

(** The constructor initialises [image_] and [buffer_]; the base class
    [Decoder] (codec/decoder.h, not among the sources) starts closed and
    without a stream: "Open() must succeed before retrieval".  The other
    fields keep whatever the memory held, [uninit]. *)
Definition OIIODecoder_new (uninit : OIIODecoder) : OIIODecoder :=
  {| stream_ := None; open_ := false; image_ := None; buffer_ := None;
     width_ := width_ uninit; height_ := height_ uninit;
     is_rgba_ := is_rgba_ uninit; pix_fmt_ := pix_fmt_ uninit;
     type_ := type_ uninit |}.

Definition id : string := "oiio".

Definition set_stream (d : OIIODecoder) (s : StreamPtr) : OIIODecoder :=
  {| stream_ := s; open_ := open_ d; image_ := image_ d; buffer_ := buffer_ d;
     width_ := width_ d; height_ := height_ d; is_rgba_ := is_rgba_ d;
     pix_fmt_ := pix_fmt_ d; type_ := type_ d |}.

(** The pixel format chosen by the chain of comparisons in [Open]. *)
Definition select_pix_fmt (fmt : TypeDesc) (rgba : bool) : option PixelFormat :=
  if TypeDesc_eqb fmt UINT8 then
    Some (if rgba then PIX_FMT_RGBA8 else PIX_FMT_RGB8)
  else if TypeDesc_eqb fmt UINT16 then
    Some (if rgba then PIX_FMT_RGBA16U else PIX_FMT_RGB16U)
  else if TypeDesc_eqb fmt HALF then
    Some (if rgba then PIX_FMT_RGBA16F else PIX_FMT_RGB16F)
  else if TypeDesc_eqb fmt FLOAT then
    Some (if rgba then PIX_FMT_RGBA32F else PIX_FMT_RGB32F)
  else None.

(** [OIIODecoder::Open].  The result is [None] when [stream()] is null
    (the source dereferences it), else the returned [bool] and the
    decoder after the call.  The fields are written in the order of the
    source, so a failure half-way keeps what was already stored. *)
Definition Open (d : OIIODecoder) : option (bool * OIIODecoder) :=
  match stream_ d with
  | None => None
  | Some s =>
    let image := ImageInput_open (filename (footage s)) in
    match image with
    | None =>
      Some (false,
            {| stream_ := stream_ d; open_ := open_ d; image_ := None;
               buffer_ := buffer_ d; width_ := width_ d; height_ := height_ d;
               is_rgba_ := is_rgba_ d; pix_fmt_ := pix_fmt_ d; type_ := type_ d |})
    | Some img =>
      let spec := input_spec img in
      let rgba := Z.eqb (nchannels spec) kRGBAChannels in
      match select_pix_fmt (format spec) rgba with
      | None =>
        (* qWarning: no native pixel format *)
        Some (false,
              {| stream_ := stream_ d; open_ := open_ d; image_ := image;
                 buffer_ := buffer_ d; width_ := spec_width spec;
                 height_ := spec_height spec; is_rgba_ := rgba;
                 pix_fmt_ := pix_fmt_ d; type_ := type_ d |})
      | Some pf =>
        let ty := GetOIIOTypeDesc pf in
        let bspec := mkImageSpec (spec_width spec) (spec_height spec) (nchannels spec) ty in
        Some (true,
              {| stream_ := stream_ d; open_ := true; image_ := image;
                 buffer_ := Some (mkImageBuf bspec (read_image img ty));
                 width_ := spec_width spec; height_ := spec_height spec;
                 is_rgba_ := rgba; pix_fmt_ := pf; type_ := ty |})
      end
    end
  end.

(** [OIIODecoder::GetRetrieveState]; the mutex it takes guards nothing
    but the read of [open_]. *)
Definition GetRetrieveState (d : OIIODecoder) (time : rational) : RetrieveState :=
  if negb (open_ d) then kFailedToOpen else kReady.

(** [OIIODecoder::RetrieveVideo].  [Some None] is the null frame of a
    closed decoder; [None] is the dereference of a null [buffer_]. *)
Definition RetrieveVideo (d : OIIODecoder) (timecode : rational) (divider : Z)
  : option FramePtr :=
  if negb (open_ d) then Some None
  else
    let w := int_div (width_ d) divider in
    let h := int_div (height_ d) divider in
    let fmt := pix_fmt_ d in
    match buffer_ d with
    | None => None
    | Some buf =>
      let dst_spec :=
        mkImageSpec w h (nchannels (buf_spec buf)) (format (buf_spec buf)) in
      (* a failed resize is only logged *)
      let '(_, data) := ImageBufAlgo_resize dst_spec (Frame_allocate w h fmt) buf in
      Some (Some {| frame_width := w; frame_height := h; frame_format := fmt;
                    frame_data := Some data |})
    end.

(** [OIIODecoder::Close]: releases the image and the buffer; [open_] is
    not touched. *)
Definition Close (d : OIIODecoder) : OIIODecoder :=
  {| stream_ := stream_ d; open_ := open_ d; image_ := None; buffer_ := None;
     width_ := width_ d; height_ := height_ d; is_rgba_ := is_rgba_ d;
     pix_fmt_ := pix_fmt_ d; type_ := type_ d |}.

Definition SupportsVideo (d : OIIODecoder) : bool := true.

(** The calls a client makes on a decoder, and a decoder's life as a list
    of them.  [after_calls] also tells whether some [Open] has returned
    true; it is [None] when a call had no defined behaviour. *)
Inductive Call : Type :=
  | CallSetStream (s : StreamPtr)
  | CallOpen
  | CallClose.

Fixpoint after_calls (calls : list Call) (d : OIIODecoder) (opened : bool)
  : option (OIIODecoder * bool) :=
  match calls with
  | [] => Some (d, opened)
  | CallSetStream s :: rest => after_calls rest (set_stream d s) opened
  | CallOpen :: rest =>
    match Open d with
    | Some (ok, d') => after_calls rest d' (opened || ok)
    | None => None
    end
  | CallClose :: rest => after_calls rest (Close d) opened
  end.

Definition GetIndexFilename (d : OIIODecoder) : string := "".

End Decoder.

End OIIO.

(** ** Values, tables and databases *)

(** NodeParam::DataType.  The enumeration is declared in node/param.h, which
    is not among the sources; the worker only tells [kFootage] from the
    rest. *)
Inductive DataType : Type :=
  | kNone | kInt | kFloat | kColor | kString | kBoolean
  | kFootage | kTexture | kSamples | kAny.

#[global] Instance DataType_eq_dec : EqDecision DataType.
Proof. solve_decision. Defined.

(** [QVariant]: a dynamically typed value.  [QOpaque] stands for payloads
    the worker never inspects (textures, sample buffers), by handle. *)
Inductive QVariant : Type :=
  | QInvalid
  | QInt (z : Z)
  | QDouble (q : Q)
  | QBool (b : bool)
  | QString (s : string)
  | QStreamPtr (s : StreamPtr)
  | QOpaque (handle : nat).

(** [v.value<StreamPtr>()]: the stored pointer, or a default-constructed
    (null) one when the variant holds something else. *)
Definition QVariant_value_StreamPtr (v : QVariant) : StreamPtr :=
  match v with
  | QStreamPtr s => s
  | _ => None
  end.

(** Modelled from the spec: [NodeValueTable] is declared in node/value.h,
    which is not among the sources.  "Ordered sequence of (data type, value)
    entries"; "Push(type, value) appends an entry". *)
Definition NodeValueTable : Type := list (DataType * QVariant).

Definition Table_Push (ty : DataType) (v : QVariant) (t : NodeValueTable)
  : NodeValueTable := t ++ [(ty, v)].

(** Modelled from the spec: [NodeValueDatabase], "mapping from Input identity
    to Value Table"; "Insert called twice for the same Input replaces the
    prior entry".  An Input's identity is its [input_id]. *)
Abbreviation NodeValueDatabase := (gmap nat NodeValueTable).

Definition Database_Insert (input : nat) (t : NodeValueTable)
  (db : NodeValueDatabase) : NodeValueDatabase := <[input := t]> db.

(** ** The node graph

    The graph is immutable during an evaluation and the worker follows it
    from a node to the nodes connected to its inputs.  A node is the tree of
    what it reaches; a cyclic graph has no such tree and is outside the
    model, as it is outside the worker's defined behaviour. *)

Record NodeInput (N : Type) : Type := mkNodeInput {
  input_id : nat;
  data_type : DataType;
  get_value_at_time : rational -> QVariant;  (* the Input's own keyed storage *)
  get_connected_node : option N
}.
Arguments mkNodeInput {N}.
Arguments input_id {N}.
Arguments data_type {N}.
Arguments get_value_at_time {N}.
Arguments get_connected_node {N}.

(** An Input is connected exactly when it has a connected node. *)
Definition IsConnected {N} (input : NodeInput N) : bool :=
  if get_connected_node input is Some _ then true else false.

(** A parameter and its [type()]. *)
Inductive NodeParam (N : Type) : Type :=
  | kInput (input : NodeInput N)
  | kOutput (output_id : nat).
Arguments kInput {N}.
Arguments kOutput {N}.

(** The virtual members [Value] and [InputTimeAdjustment] are fields; the
    latter receives the Input by its identity. *)
#[warnings="-register-all"]
Inductive Node : Type := mkNode {
  node_id : nat;
  IsTrack : bool;
  parameters : list (NodeParam Node);
  Value : NodeValueDatabase -> NodeValueTable;
  InputTimeAdjustment : nat -> TimeRange -> TimeRange
}.

Record NodeDependency : Type := mkNodeDependency {
  dep_node : Node;
  dep_range : TimeRange
}.

(** ** What an evaluation does to the outside

    The signals and log lines of the source, and one entry for every call
    into the decoder cache and the decoders, in the order of the calls. *)
Inductive Event : Type :=
  | EvIsCancelled (flag : bool)          (* one read of the cancellation flag *)
  | EvLock                               (* QMutexLocker on decoder_cache_->lock() *)
  | EvUnlock                             (* its destructor *)
  | EvCacheGet (key : option nat)
  | EvCacheAdd (key : option nat)
  | EvCreateFromID (decoder_id : string)
  | EvOpen (key : option nat) (ok : bool)
  | EvGetRetrieveState (key : option nat) (time : rational)
  | EvRetrieve (key : option nat) (range : TimeRange)
  | EvWarning (file : string) (stream_index : Z)
  | EvFootageUnavailable (stream : StreamPtr) (state : RetrieveState)
      (path : TimeRange) (stream_time : rational)
  | EvCompletedCache (dep : NodeDependency) (data : NodeValueTable) (job_time : Z).

(** Calls that reach a decoder: creation, [Open], the state query and the
    frame retrieval. *)
Definition is_decoder_io (e : Event) : bool :=
  match e with
  | EvCreateFromID _ | EvOpen _ _ | EvGetRetrieveState _ _ | EvRetrieve _ _ => true
  | _ => false
  end.


(** ** The worker *)

(** The fields of [RenderWorker], the decoder cache its [decoder_cache_]
    points to, and two records kept for the proofs: the number of
    cancellation polls made so far and the events so far. *)
Record RenderWorker (Dec : Type) : Type := mkRenderWorker {
  started_ : bool;
  decoder_cache_ : gmap (option nat) Dec;
  path_ : option NodeDependency;   (* [None]: default-constructed, before any Render *)
  polls : nat;
  trace : list Event
}.
Arguments mkRenderWorker {Dec}.
Arguments started_ {Dec}.
Arguments decoder_cache_ {Dec}.
Arguments path_ {Dec}.
Arguments polls {Dec}.
Arguments trace {Dec}.

(** The decoders, the pure virtual members of [RenderWorker] that a backend
    supplies, and the thread that may raise the cancellation flag:
    [cancel_signal k] is the value of the flag at the worker's [k]-th poll. *)
Class WorkerEnv : Type := {
  Dec : Type;
  FrameT : Type;
  CreateFromID : string -> Dec;
  set_stream : Dec -> StreamPtr -> Dec;
  Open : Dec -> bool * Dec;
  GetRetrieveState : Dec -> rational -> RetrieveState;
  RetrieveFromDecoder : Dec -> TimeRange -> option FrameT * Dec;
  FrameToValue : Stream -> FrameT -> NodeValueTable -> NodeValueTable;
  RenderBlock : Node -> TimeRange -> RenderWorker Dec -> NodeValueTable * RenderWorker Dec;
  InitInternal : RenderWorker Dec -> bool * RenderWorker Dec;
  CloseInternal : RenderWorker Dec -> RenderWorker Dec;
  cancel_signal : nat -> bool
}.

Section Worker.

Context {E : WorkerEnv}.

Definition DecoderPtr : Type := option Dec.
Definition FramePtr : Type := option FrameT.

Abbreviation State := (RenderWorker Dec).

(** Computations over the worker. *)
Definition M (A : Type) : Type := State -> A * State.

Definition ret {A} (a : A) : M A := fun st => (a, st).

Definition bind {A B} (m : M A) (k : A -> M B) : M B :=
  fun st => let (a, st') := m st in k a st'.

Notation "x <- m ; k" := (bind m (fun x => k))
  (at level 20, m at level 100, k at level 200, only parsing).
Notation "'run' m ; k" := (bind m (fun _ => k))
  (at level 20, m at level 100, k at level 200, only parsing).

Definition emit (e : Event) : M unit :=
  fun st => (tt, mkRenderWorker (started_ st) (decoder_cache_ st) (path_ st)
                   (polls st) (trace st ++ [e])).

(** The worker after the events [es], and with another content of the
    cache. *)
Definition emit_all (es : list Event) (st : State) : State :=
  mkRenderWorker (started_ st) (decoder_cache_ st) (path_ st) (polls st)
    (trace st ++ es).

Definition with_cache (cache : gmap (option nat) Dec) (st : State) : State :=
  mkRenderWorker (started_ st) cache (path_ st) (polls st) (trace st).

Definition set_started (b : bool) (st : State) : State :=
  mkRenderWorker b (decoder_cache_ st) (path_ st) (polls st) (trace st).

Definition set_path (p : NodeDependency) : M unit :=
  fun st => (tt, mkRenderWorker (started_ st) (decoder_cache_ st) (Some p)
                   (polls st) (trace st)).

(** Modelled from the spec: the decoder cache is render/backend/decodercache.h,
    not among the sources.  "Get: look up, return without creating";
    "Add: insert; last-write-wins if the key already exists".  The mutex
    is the one the caller takes through [lock()]. *)
Definition DecoderCache_Get (key : option nat) : M DecoderPtr :=
  fun st =>
    (decoder_cache_ st !! key,
     mkRenderWorker (started_ st) (decoder_cache_ st) (path_ st) (polls st)
       (trace st ++ [EvCacheGet key])).

Definition DecoderCache_Add (key : option nat) (d : Dec) : M unit :=
  fun st =>
    (tt, mkRenderWorker (started_ st) (<[key := d]> (decoder_cache_ st))
           (path_ st) (polls st) (trace st ++ [EvCacheAdd key])).

(** Modelled from the spec: [IsCancelled] is declared in renderworker.h, not
    among the sources.  "Cooperative, polled ... via a shared cancellation
    flag": one read of the flag. *)
Definition IsCancelled : M bool :=
  fun st =>
    (cancel_signal (polls st),
     mkRenderWorker (started_ st) (decoder_cache_ st) (path_ st)
       (S (polls st)) (trace st ++ [EvIsCancelled (cancel_signal (polls st))])).

Definition Close : M unit :=
  fun st => (tt, set_started false (CloseInternal st)).

Definition Init : M bool :=
  fun st =>
    if started_ st then (true, st)
    else
      let (ok, st1) := InitInternal st in
      let st2 := set_started ok st1 in
      if ok then (true, st2) else (false, snd (Close st2)).

Definition IsStarted : M bool := fun st => (started_ st, st).

(** The base implementation does nothing. *)
Definition RunNodeAccelerated (node : Node) (range : TimeRange)
  (input_params : NodeValueDatabase) (output_params : NodeValueTable)
  : NodeValueTable := output_params.

Definition ResolveStreamFromInput (input : NodeInput Node) : StreamPtr :=
  QVariant_value_StreamPtr (get_value_at_time input (rational_of_int 0)).

Definition ResolveDecoderFromInput (stream : StreamPtr) : M DecoderPtr :=
  run emit EvLock ;
  decoder <- DecoderCache_Get (StreamPtr_get stream) ;
  result <-
    match decoder, stream with
    | None, Some s =>
      (* Create a new Decoder here *)
      run emit (EvCreateFromID (footage_decoder (footage s))) ;
      let d := set_stream (CreateFromID (footage_decoder (footage s))) stream in
      let (ok, d') := Open d in
      run emit (EvOpen (StreamPtr_get stream) ok) ;
      if ok then
        run DecoderCache_Add (StreamPtr_get stream) d' ;
        ret (Some d')
      else
        run emit (EvWarning (filename (footage s)) (index s)) ;
        ret None
    | _, _ => ret decoder
    end ;
  run emit EvUnlock ;
  ret result.

Definition path_range (st : State) : option TimeRange :=
  dep_range <$> path_ st.

(** [emit FootageUnavailable(stream, state, path_.range(), stream_time)].
    Before the first [Render] the range is that of a default-constructed
    descriptor. *)
Definition ReportUnavailableFootage (stream : StreamPtr) (state : RetrieveState)
  (stream_time : rational) : M unit :=
  fun st =>
    emit (EvFootageUnavailable stream state
            (default (mkTimeRange (rational_of_int 0) (rational_of_int 0))
                     (path_range st))
            stream_time) st.

Definition CurrentPath : M (option NodeDependency) := fun st => (path_ st, st).

(** The decoder behind a [DecoderPtr] is the object the cache holds for the
    stream: what a retrieval does to it is seen through the cache. *)
Definition call_RetrieveFromDecoder (stream : Stream) (decoder : Dec)
  (range : TimeRange) : M FramePtr :=
  run emit (EvRetrieve (Some (stream_addr stream)) range) ;
  fun st =>
    let (frame, d') := RetrieveFromDecoder decoder range in
    (frame, mkRenderWorker (started_ st)
              (<[Some (stream_addr stream) := d']> (decoder_cache_ st))
              (path_ st) (polls st) (trace st)).

(** The footage exception of [GenerateDatabase], lines 155-176: what is
    done to [table] for an Input of type [kFootage]. *)
Definition RetrieveFootage (input : NodeInput Node) (input_time : TimeRange)
  (table : NodeValueTable) : M NodeValueTable :=
  let stream := ResolveStreamFromInput input in
  match stream with
  | None => ret table
  | Some s =>
    decoder <- ResolveDecoderFromInput stream ;
    match decoder with
    | None => ret table
    | Some d =>
      run emit (EvGetRetrieveState (Some (stream_addr s)) (range_out input_time)) ;
      let state := GetRetrieveState d (range_out input_time) in
      if decide (state = kReady) then
        frame <- call_RetrieveFromDecoder s d input_time ;
        match frame with
        | Some f => ret (FrameToValue s f table)
        | None => ret table
        end
      else
        run ReportUnavailableFootage stream state (range_out input_time) ;
        ret table
    end
  end.

Section Recursion.

(** The evaluation of the node an Input is connected to. *)
Variable ProcessNode_rec : Node -> TimeRange -> M NodeValueTable.

Definition ProcessInput_with (input : NodeInput Node) (range : TimeRange)
  : M NodeValueTable :=
  match get_connected_node input with
  | Some connected =>
    (* Value will equal something from the connected node, follow it *)
    ProcessNode_rec connected range
  | None =>
    (* Push onto the table the value at this time from the input *)
    let input_value := get_value_at_time input (range_in range) in
    ret (Table_Push (data_type input) input_value [])
  end.

(** One turn of the loop of [GenerateDatabase] after its cancellation
    check. *)
Definition GenerateDatabase_body (adjust : nat -> TimeRange -> TimeRange)
  (range : TimeRange) (param : NodeParam Node) (database : NodeValueDatabase)
  : M NodeValueDatabase :=
  match param with
  | kInput input =>
    let input_time := adjust (input_id input) range in
    table <- ProcessInput_with input input_time ;
    table' <- (if decide (data_type input = kFootage)
               then RetrieveFootage input input_time table
               else ret table) ;
    ret (Database_Insert (input_id input) table' database)
  | kOutput _ => ret database
  end.

(** The loop of [GenerateDatabase] over the parameters still to visit. *)
Fixpoint GenerateDatabase_loop (adjust : nat -> TimeRange -> TimeRange)
  (range : TimeRange) (params : list (NodeParam Node))
  (database : NodeValueDatabase) : M NodeValueDatabase :=
  match params with
  | [] => ret database
  | param :: rest =>
    cancelled <- IsCancelled ;
    if (cancelled : bool) then ret ∅
    else
      database' <- GenerateDatabase_body adjust range param database ;
      GenerateDatabase_loop adjust range rest database'
  end.

(** The loop, started on [params] with [database] in state [st], comes
    to the head of the parameters [params'] with [database'] in state
    [st']: every turn in between passed its cancellation check. *)
Inductive loop_reaches (adjust : nat -> TimeRange -> TimeRange)
  (range : TimeRange)
  : list (NodeParam Node) -> NodeValueDatabase -> State ->
    list (NodeParam Node) -> NodeValueDatabase -> State -> Prop :=
  | reaches_here params database st :
      loop_reaches adjust range params database st params database st
  | reaches_next param rest database st st1 database1 st2 params' database' st' :
      IsCancelled st = (false, st1) ->
      GenerateDatabase_body adjust range param database st1 = (database1, st2) ->
      loop_reaches adjust range rest database1 st2 params' database' st' ->
      loop_reaches adjust range (param :: rest) database st params' database' st'.

End Recursion.

(** [ProcessNode(NodeDependency(node, range))]. *)
Fixpoint ProcessNode (node : Node) (range : TimeRange) {struct node}
  : M NodeValueTable :=
  match node with
  | mkNode nid track params value adjust =>
    if track then
      RenderBlock node range
    else
      database <- GenerateDatabase_loop ProcessNode adjust range params ∅ ;
      let table := value database in
      ret (RunNodeAccelerated node range database table)
  end.

Definition ProcessInput : NodeInput Node -> TimeRange -> M NodeValueTable :=
  ProcessInput_with ProcessNode.

Definition GenerateDatabase (node : Node) (range : TimeRange)
  : M NodeValueDatabase :=
  GenerateDatabase_loop ProcessNode (InputTimeAdjustment node) range
    (parameters node) ∅.

Definition RenderInternal (path : NodeDependency) (job_time : Z)
  : M NodeValueTable :=
  ProcessNode (dep_node path) (dep_range path).

Definition Render (path : NodeDependency) (job_time : Z) : M unit :=
  run set_path path ;
  data <- RenderInternal path job_time ;
  emit (EvCompletedCache path data job_time).

End Worker.

(** ** Two workers resolving decoders against one cache

    [ResolveDecoderFromInput] cut at its accesses to what the workers share:
    the mutex of the decoder cache, the cache, and the decoders' files.  The
    control points carry the locals of the function. *)

Section Concurrent.

Context {E : WorkerEnv}.

Inductive ResolvePC : Type :=
  | AtLock                          (* line 63, before the QMutexLocker *)
  | AtGet                           (* line 67 *)
  | AtTest (decoder : DecoderPtr)   (* line 69 *)
  | AtOpen (decoder : Dec)          (* line 74 *)
  | AtAdd (decoder : Dec)           (* line 75 *)
  | AtWarn                          (* lines 77-78 *)
  | AtReturn (decoder : DecoderPtr) (* line 82: the locker goes out of scope *)
  | Returned (decoder : DecoderPtr).

Record Shared : Type := mkShared {
  sh_cache : gmap (option nat) Dec;
  sh_mutex : option nat;            (* the thread holding the cache's mutex *)
  sh_log : list (nat * Event)       (* who did what, in global order *)
}.

Definition sh_emit (tid : nat) (e : Event) (sh : Shared) : Shared :=
  mkShared (sh_cache sh) (sh_mutex sh) (sh_log sh ++ [(tid, e)]).

(** One step of thread [tid] in [ResolveDecoderFromInput(stream)]; [None]
    when the thread cannot move: it waits for the mutex, or has returned. *)
Definition resolve_step (tid : nat) (stream : StreamPtr) (pc : ResolvePC)
  (sh : Shared) : option (ResolvePC * Shared) :=
  match pc with
  | AtLock =>
    match sh_mutex sh with
    | None =>
      Some (AtGet, mkShared (sh_cache sh) (Some tid) (sh_log sh ++ [(tid, EvLock)]))
    | Some _ => None
    end
  | AtGet =>
    Some (AtTest (sh_cache sh !! StreamPtr_get stream),
          sh_emit tid (EvCacheGet (StreamPtr_get stream)) sh)
  | AtTest decoder =>
    match decoder, stream with
    | None, Some s =>
      Some (AtOpen (set_stream (CreateFromID (footage_decoder (footage s))) stream),
            sh_emit tid (EvCreateFromID (footage_decoder (footage s))) sh)
    | _, _ => Some (AtReturn decoder, sh)
    end
  | AtOpen d =>
    let (ok, d') := Open d in
    Some (if ok then AtAdd d' else AtWarn,
          sh_emit tid (EvOpen (StreamPtr_get stream) ok) sh)
  | AtAdd d =>
    Some (AtReturn (Some d),
          mkShared (<[StreamPtr_get stream := d]> (sh_cache sh)) (sh_mutex sh)
            (sh_log sh ++ [(tid, EvCacheAdd (StreamPtr_get stream))]))
  | AtWarn =>
    match stream with
    | Some s =>
      Some (AtReturn None, sh_emit tid (EvWarning (filename (footage s)) (index s)) sh)
    | None => Some (AtReturn None, sh)
    end
  | AtReturn r =>
    Some (Returned r, mkShared (sh_cache sh) None (sh_log sh ++ [(tid, EvUnlock)]))
  | Returned _ => None
  end.

(** A thread left alone, for at most [fuel] steps. *)
Fixpoint run_alone (fuel : nat) (tid : nat) (stream : StreamPtr)
  (pc : ResolvePC) (sh : Shared) : ResolvePC * Shared :=
  match fuel with
  | O => (pc, sh)
  | S fuel' =>
    match resolve_step tid stream pc sh with
    | Some (pc', sh') => run_alone fuel' tid stream pc' sh'
    | None => (pc, sh)
    end
  end.

(** Workers 1 and 2, each inside one call of [ResolveDecoderFromInput]. *)
Record Config : Type := mkConfig {
  worker1 : ResolvePC;
  worker2 : ResolvePC;
  shared : Shared
}.

(** Any interleaving: the scheduler picks a worker that can move. *)
Inductive sched_step (s1 s2 : StreamPtr) : Config -> Config -> Prop :=
  | step_worker1 c pc' sh' :
      resolve_step 1 s1 (worker1 c) (shared c) = Some (pc', sh') ->
      sched_step s1 s2 c (mkConfig pc' (worker2 c) sh')
  | step_worker2 c pc' sh' :
      resolve_step 2 s2 (worker2 c) (shared c) = Some (pc', sh') ->
      sched_step s1 s2 c (mkConfig (worker1 c) pc' sh').

Definition initial_config (cache : gmap (option nat) Dec) : Config :=
  mkConfig AtLock AtLock (mkShared cache None []).

Definition reachable (s1 s2 : StreamPtr) (cache : gmap (option nat) Dec)
  (c : Config) : Prop :=
  rtc (sched_step s1 s2) (initial_config cache) c.

(** Between the constructor and the destructor of the locker. *)
Definition holds_lock (pc : ResolvePC) : bool :=
  match pc with
  | AtLock | Returned _ => false
  | _ => true
  end.




(** What holds of every configuration two workers can come to when both
    resolve the stream [s], whose decoder opens as [d0]: the mutex is with
    the worker between lock and unlock, at most one decoder has been made,
    and one that has been made is in the cache or on its way there. *)
Definition mutex_ok (c : Config) : Prop :=
  (holds_lock (worker1 c) = true <-> sh_mutex (shared c) = Some 1%nat) /\
  (holds_lock (worker2 c) = true <-> sh_mutex (shared c) = Some 2%nat).




End Concurrent.

(** ** A small environment to run the worker in

    Decoders are told apart by their id: "oiio" opens any file but
    "missing.png" and always has its frame; "ffmpeg" opens likewise, is ready,
    and has no frame to give; "indexing" opens and is not ready. *)

Module Test.

Record TestDecoder : Type := mkTestDecoder {
  td_id : string;
  td_stream : StreamPtr;
  td_open : bool
}.

Definition td_Open (d : TestDecoder) : bool * TestDecoder :=
  match td_stream d with
  | Some s =>
    if String.eqb (filename (footage s)) "missing.png" then (false, d)
    else (true, mkTestDecoder (td_id d) (td_stream d) true)
  | None => (false, d)
  end.

Definition td_GetRetrieveState (d : TestDecoder) (t : rational) : RetrieveState :=
  if negb (td_open d) then kFailedToOpen
  else if String.eqb (td_id d) "indexing" then kNotReady
  else kReady.

Definition td_Retrieve (d : TestDecoder) (r : TimeRange) : option nat * TestDecoder :=
  if String.eqb (td_id d) "oiio" then (Some 7%nat, d) else (None, d).

(** [cancel] is the schedule of the cancelling thread. *)
Definition env (cancel : nat -> bool) : WorkerEnv :=
  {| Dec := TestDecoder;
     FrameT := nat;
     CreateFromID := fun id => mkTestDecoder id None false;
     set_stream := fun d s => mkTestDecoder (td_id d) s (td_open d);
     Open := td_Open;
     GetRetrieveState := td_GetRetrieveState;
     RetrieveFromDecoder := td_Retrieve;
     FrameToValue := fun s f t => Table_Push kTexture (QOpaque f) t;
     RenderBlock := fun n r st => ([], st);
     InitInternal := fun st => (true, st);
     CloseInternal := fun st => st;
     cancel_signal := cancel |}.

Definition never : nat -> bool := fun _ => false.
(** The flag is raised between poll [k - 1] and poll [k], and stays up. *)
Definition from (k : nat) : nat -> bool := fun n => (k <=? n)%nat.

Definition fresh : RenderWorker TestDecoder := mkRenderWorker true ∅ None O [].

Definition clip : Stream := mkStream 100 (mkFootage "clip.png" "oiio") 0.
Definition lost : Stream := mkStream 101 (mkFootage "missing.png" "oiio") 0.
Definition movie : Stream := mkStream 102 (mkFootage "movie.mov" "ffmpeg") 0.
Definition slow : Stream := mkStream 103 (mkFootage "long.mov" "indexing") 0.

Definition same : nat -> TimeRange -> TimeRange := fun _ r => r.

(** An Input holding a constant. *)
Definition literal (id : nat) (ty : DataType) (v : QVariant) : NodeInput Node :=
  mkNodeInput id ty (fun _ => v) None.

Definition footage_input (id : nat) (s : Stream) : NodeInput Node :=
  literal id kFootage (QStreamPtr (Some s)).

(** A node that hands on the number of tables it was given. *)
Definition count_inputs (db : NodeValueDatabase) : NodeValueTable :=
  [(kInt, QInt (Z.of_nat (size db)))].

Definition media (nid : nat) (s : Stream) : Node :=
  mkNode nid false [kInput (footage_input 1 s); kOutput 2] count_inputs same.

Definition range_10_20 : TimeRange :=
  mkTimeRange (rational_of_int 10) (rational_of_int 20).

(** A worker that has polled the flag once and found it down. *)
Definition st_polled : RenderWorker TestDecoder :=
  mkRenderWorker true ∅ None 1 [EvIsCancelled false].

(** A node with one literal Input. *)
Definition five (nid : nat) : Node :=
  mkNode nid false [kInput (literal 3 kInt (QInt 5))] count_inputs same.

(** A node whose footage Input is connected to [five] and stores a stream. *)
Definition viewer (nid : nat) (s : Stream) : Node :=
  mkNode nid false
    [kInput (mkNodeInput 1 kFootage (fun _ => QStreamPtr (Some s)) (Some (five 2)))]
    count_inputs same.

(** A literal Input followed by a footage Input. *)
Definition two_inputs (nid : nat) (s : Stream) : Node :=
  mkNode nid false
    [kInput (literal 3 kInt (QInt 5)); kInput (footage_input 1 s)]
    count_inputs same.

(** A worker inside [Render] of [media 1 s] over [10, 20). *)
Definition st_rendering (s : Stream) : RenderWorker TestDecoder :=
  mkRenderWorker true ∅ (Some (mkNodeDependency (media 1 s) range_10_20)) 0 [].

(** Worker 1 has taken the lock of the cache; worker 2 waits for it. *)
Definition one_locked : Config (E := env never) :=
  mkConfig AtGet AtLock (mkShared ∅ (Some 1%nat) [(1%nat, EvLock)]).

(** An image library with two files: a 1920x1080 RGBA 8-bit image and a
    double-precision one the decoder has no format for. *)
Definition library : OIIO.Library :=
  {| OIIO.Pixels := list Z;
     OIIO.ImageInput_open := fun file =>
       if String.eqb file "clip.png" then
         Some (OIIO.mkImageInput (OIIO.mkImageSpec 1920 1080 4 OIIO.UINT8) file)
       else if String.eqb file "deep.exr" then
         Some (OIIO.mkImageInput (OIIO.mkImageSpec 640 480 3 OIIO.DOUBLE) file)
       else None;
     OIIO.read_image := fun _ _ => [];
     OIIO.ImageBufAlgo_resize := fun _ dst _ => (true, dst);
     OIIO.Frame_allocate := fun _ _ _ => [];
     OIIO.kRGBAChannels := 4;
     OIIO.GetOIIOTypeDesc := fun pf =>
       match pf with
       | OIIO.PIX_FMT_RGB8 | OIIO.PIX_FMT_RGBA8 => OIIO.UINT8
       | OIIO.PIX_FMT_RGB16U | OIIO.PIX_FMT_RGBA16U => OIIO.UINT16
       | OIIO.PIX_FMT_RGB16F | OIIO.PIX_FMT_RGBA16F => OIIO.HALF
       | OIIO.PIX_FMT_RGB32F | OIIO.PIX_FMT_RGBA32F => OIIO.FLOAT
       | OIIO.PIX_FMT_INVALID => OIIO.UNKNOWN
       end |}.

(** A decoder that failed on "missing.png", opened "clip.png" and was
    closed. *)
Definition closed_decoder : OIIO.OIIODecoder (L := library) :=
  OIIO.mkOIIODecoder (L := library) (Some clip) true None None 1920 1080 true
    OIIO.PIX_FMT_RGBA8 OIIO.UINT8.

(** What the memory held before a decoder is constructed there. *)
Definition stale_memory : OIIO.OIIODecoder (L := library) :=
  OIIO.mkOIIODecoder None true None None 0 0 false OIIO.PIX_FMT_INVALID OIIO.UNKNOWN.

(** The decoder of "clip.png" after its [Open]. *)
Definition clip_decoder : OIIO.OIIODecoder (L := library) :=
  let spec := OIIO.mkImageSpec 1920 1080 4 OIIO.UINT8 in
  OIIO.mkOIIODecoder (L := library) (Some clip) true
    (Some (OIIO.mkImageInput spec "clip.png"))
    (Some (OIIO.mkImageBuf spec ([] : list Z))) 1920 1080 true OIIO.PIX_FMT_RGBA8 OIIO.UINT8.

End Test.

(** ** More of the worker: what a graph asks of it *)

(** The identities of the Inputs among [params], in declaration order. *)
Definition param_input_ids (params : list (NodeParam Node)) : list nat :=
  flat_map (fun p => match p with
                     | kInput input => [input_id input]
                     | kOutput _ => []
                     end) params.

(** No Input of [params] is connected. *)
Definition all_unconnected (params : list (NodeParam Node)) : bool :=
  forallb (fun p => match p with
                    | kInput input => negb (IsConnected input)
                    | kOutput _ => true
                    end) params.

(** Neither the node nor anything below it is a track or has an Input of
    type [kFootage]. *)
Fixpoint footage_free (node : Node) : bool :=
  match node with
  | mkNode _ track params _ _ =>
    negb track &&
    forallb (fun p =>
               match p with
               | kInput input =>
                 negb (bool_decide (data_type input = kFootage)) &&
                 match get_connected_node input with
                 | Some connected => footage_free connected
                 | None => true
                 end
               | kOutput _ => true
               end) params
  end.

(** Every stream the first cache has a decoder for, the second has one for. *)
Definition keeps_decoders {D : Type} (before after : gmap (option nat) D) : Prop :=
  forall key, is_Some (before !! key) -> is_Some (after !! key).

(** An event that is a read of the cancellation flag. *)
Definition is_poll (e : Event) : bool :=
  match e with
  | EvIsCancelled _ => true
  | _ => false
  end.

(** From [st] to [st'] the cache is as it was and only the cancellation flag
    has been read. *)
Definition only_polls {D : Type} (st st' : RenderWorker D) : Prop :=
  decoder_cache_ st' = decoder_cache_ st /\
  exists events, trace st' = trace st ++ events /\ forallb is_poll events = true.

(** ** More of the two workers *)

Section Concurrent_more.

Context {E : WorkerEnv}.

(** The mutex is free or with one of the two workers. *)
Definition mutex_owner_known (c : Config) : Prop :=
  sh_mutex (shared c) = None \/ sh_mutex (shared c) = Some 1%nat \/
  sh_mutex (shared c) = Some 2%nat.

Definition has_returned (pc : ResolvePC) : bool :=
  match pc with
  | Returned _ => true
  | _ => false
  end.

(** The decoders a worker holds in its locals are the one decoder [d1] that
    [Open] made of [d0], and the cache has nothing else for the stream. *)
Definition local_decoder_ok (d0 d1 : Dec) (pc : ResolvePC) : Prop :=
  match pc with
  | AtTest (Some d) | AtAdd d | AtReturn (Some d) | Returned (Some d) => d = d1
  | AtOpen d => d = d0
  | AtReturn None | Returned None | AtWarn => False
  | _ => True
  end.

(** The worker has seen a decoder in the cache, or put one there. *)
Definition settled (pc : ResolvePC) : bool :=
  match pc with
  | AtTest (Some _) | AtReturn _ | Returned _ => true
  | _ => false
  end.

Definition one_decoder_invariant (s : Stream) (d0 d1 : Dec) (c : Config) : Prop :=
  local_decoder_ok d0 d1 (worker1 c) /\
  local_decoder_ok d0 d1 (worker2 c) /\
  (sh_cache (shared c) !! Some (stream_addr s) = None \/
   sh_cache (shared c) !! Some (stream_addr s) = Some d1) /\
  (settled (worker1 c) = true \/ settled (worker2 c) = true ->
   sh_cache (shared c) !! Some (stream_addr s) = Some d1).

End Concurrent_more.

(** The pixel formats with an alpha channel. *)
Definition PixelFormat_has_alpha (pf : OIIO.PixelFormat) : bool :=
  match pf with
  | OIIO.PIX_FMT_RGBA8 | OIIO.PIX_FMT_RGBA16U | OIIO.PIX_FMT_RGBA16F
  | OIIO.PIX_FMT_RGBA32F => true
  | _ => false
  end.

(** The sample types [Open] has a pixel format for. *)
Definition handled_types : list OIIO.TypeDesc :=
  [OIIO.UINT8; OIIO.UINT16; OIIO.HALF; OIIO.FLOAT].

(** ** Strings as the Qt classes cut them

    [QString::split] with one separator character and the default
    [KeepEmptyParts]: the pieces between the separators, a single piece when
    there is none.  [QFileInfo::fileName] is what follows the last '/',
    [baseName] what precedes the first '.' of the file name and
    [completeSuffix] what follows it.  Case-insensitive comparison folds the
    ASCII letters. *)

Module Qt.

Fixpoint split (sep : ascii) (s : string) : list string :=
  match s with
  | EmptyString => [EmptyString]
  | String c rest =>
    if Ascii.eqb c sep then EmptyString :: split sep rest
    else
      match split sep rest with
      | piece :: pieces => String c piece :: pieces
      | [] => [String c EmptyString]
      end
  end.

Fixpoint contains_char (c : ascii) (s : string) : bool :=
  match s with
  | EmptyString => false
  | String c' rest => Ascii.eqb c' c || contains_char c rest
  end.

Definition fileName (path : string) : string :=
  List.last (split "/"%char path) EmptyString.

Definition baseName (path : string) : string :=
  List.hd EmptyString (split "."%char (fileName path)).

Definition completeSuffix (path : string) : string :=
  String.concat "." (List.tl (split "."%char (fileName path))).

Definition to_lower (c : ascii) : ascii :=
  let n := nat_of_ascii c in
  if (65 <=? n)%nat && (n <=? 90)%nat then ascii_of_nat (n + 32) else c.

Fixpoint lower (s : string) : string :=
  match s with
  | EmptyString => EmptyString
  | String c rest => String (to_lower c) (lower rest)
  end.

(** [QStringList::contains(x, Qt::CaseInsensitive)]. *)
Definition contains_ci (l : list string) (x : string) : bool :=
  existsb (fun y => String.eqb (lower y) (lower x)) l.

End Qt.

(** ** Probing a file for a still image *)

Module OIIOProbe.

(** [ImageStream], with the attributes [Probe] sets. *)
Record ImageStream : Type := mkImageStream {
  stream_width : Z;
  stream_height : Z;
  stream_index : Z;
  premultiplied_alpha : bool
}.

(** What [Probe] reads from the image library besides [ImageInput::open]:
    the "extension_list" attribute and an input's [format_name()]. *)
Class Attributes : Type := {
  extension_list : string;
  format_name : OIIO.ImageInput -> string
}.

Section Probe.

Context {L : OIIO.Library} {A : Attributes}.

(** The loop that fills [supported_formats_]: each entry is "format:ext,ext";
    [at(1)] on an entry without ':' is out of range, [None]. *)
Fixpoint append_extensions (entries : list string) (supported : list string)
  : option (list string) :=
  match entries with
  | [] => Some supported
  | ext :: rest =>
    let format_and_ext := Qt.split ":"%char ext in
    match nth_error format_and_ext 1 with
    | Some exts => append_extensions rest (supported ++ Qt.split ","%char exts)
    | None => None
    end
  end.

(** The result of one call: the returned [bool], the streams of the Footage,
    the static [supported_formats_], and the files handed to
    [ImageInput::open]. *)
Record ProbeResult : Type := mkProbeResult {
  probe_ok : bool;
  probe_streams : list ImageStream;
  probe_supported : list string;
  probe_opened : list string
}.

(** [OIIODecoder::Probe(f, cancelled)], on the Footage's file name and
    streams and the static list; [cancelled] is not read. *)
Definition Probe (f : Footage) (streams : list ImageStream)
  (supported_formats_ : list string) : option ProbeResult :=
  (* Check if we've created the supported formats list, create it if not *)
  let filled :=
    match supported_formats_ with
    | [] => append_extensions (Qt.split ";"%char extension_list) []
    | _ :: _ => Some supported_formats_
    end in
  match filled with
  | None => None
  | Some supported =>
    if negb (Qt.contains_ci supported (Qt.completeSuffix (filename f))) then
      Some (mkProbeResult false streams supported [])
    else
      match OIIO.ImageInput_open (filename f) with
      | None => Some (mkProbeResult false streams supported [filename f])
      | Some input =>
        if String.eqb (format_name input) "FFmpeg movie" then
          (* If this is FFmpeg via OIIO, fall-through to our native FFmpeg decoder *)
          Some (mkProbeResult false streams supported [filename f])
        else
          let spec := OIIO.input_spec input in
          let image_stream :=
            mkImageStream (OIIO.spec_width spec) (OIIO.spec_height spec) 0 true in
          Some (mkProbeResult true (streams ++ [image_stream]) supported [filename f])
      end
  end.

(** The "extension_list" attribute as the library writes it from its
    formats and their extensions. *)
Definition write_extension_list (formats : list (string * list string)) : string :=
  String.concat ";"
    (map (fun entry => (fst entry ++ ":" ++ String.concat "," (snd entry))%string) formats).

(** None of the separators of the attribute occurs in [s]. *)
Definition plain (s : string) : bool :=
  negb (Qt.contains_char ";" s) && negb (Qt.contains_char ":" s) &&
  negb (Qt.contains_char "," s).

Definition well_formed (formats : list (string * list string)) : bool :=
  forallb (fun entry =>
             plain (fst entry) && forallb plain (snd entry) &&
             negb (Nat.eqb (length (snd entry)) 0)) formats.

End Probe.

End OIIOProbe.

(** ** The project: its name *)

Module ProjectModel.

(** The fields of [Project] that [name], [filename] and the setters touch,
    and the [NameChanged] signals emitted so far. *)
Record Project : Type := mkProject {
  filename_ : string;
  ocio_config_ : string;
  default_input_colorspace_ : string;
  name_changed : nat
}.

Section Name.

(** [tr]: the translation of a source string in the running locale. *)
Variable tr : string -> string.

Definition name (p : Project) : string :=
  match filename_ p with
  | EmptyString => tr "(untitled)"
  | _ => Qt.baseName (filename_ p)
  end.

Definition set_filename (s : string) (p : Project) : Project :=
  mkProject s (ocio_config_ p) (default_input_colorspace_ p) (S (name_changed p)).

Definition set_ocio_config (s : string) (p : Project) : Project :=
  mkProject (filename_ p) s (default_input_colorspace_ p) (name_changed p).

Definition set_default_input_colorspace (s : string) (p : Project) : Project :=
  mkProject (filename_ p) (ocio_config_ p) s (name_changed p).

End Name.

End ProjectModel.

(** ** More to run *)

Module Sample.

(** A node over nodes, no footage anywhere. *)
Definition sum (nid : nat) : Node :=
  mkNode nid false
    [kInput (mkNodeInput 1 kInt (fun _ => QInt 0) (Some (Test.five 2)));
     kOutput 9;
     kInput (Test.literal 4 kFloat (QDouble (rational_of_int 1)))]
    Test.count_inputs Test.same.

Definition attributes : OIIOProbe.Attributes :=
  {| OIIOProbe.extension_list := "png:png;jpeg:jpg,jpe,jpeg;openexr:exr";
     OIIOProbe.format_name := fun input =>
       if String.eqb (OIIO.input_file input) "deep.exr" then "openexr" else "png" |}.

Definition png : Footage := mkFootage "clip.png" "".
Definition dotted : Footage := mkFootage "/footage/clip.v2.png" "".

Definition deep : Stream := mkStream 104 (mkFootage "deep.exr" "oiio") 0.

Definition formats : list (string * list string) :=
  [("png", ["png"]); ("jpeg", ["jpg"; "jpe"; "jpeg"]); ("openexr", ["exr"])]%string.

Definition extensions : list string := ["png"; "jpg"; "jpe"; "jpeg"; "exr"]%string.

(** An image library that reports no extensions at all. *)
Definition no_attributes : OIIOProbe.Attributes :=
  {| OIIOProbe.extension_list := "";
     OIIOProbe.format_name := fun _ => "png"%string |}.

(** What [Probe] answers for "clip.png" and for "/footage/clip.v2.png". *)
Definition accepted : OIIOProbe.ProbeResult :=
  OIIOProbe.mkProbeResult true [OIIOProbe.mkImageStream 1920 1080 0 true] extensions
    ["clip.png"%string].

Definition rejected : OIIOProbe.ProbeResult :=
  OIIOProbe.mkProbeResult false [] extensions [].

Definition saved : ProjectModel.Project :=
  ProjectModel.mkProject "/home/editor/film.final.ove" "" "" 0.

(** Both workers have returned. *)
Definition both_returned : Config (E := Test.env Test.never) :=
  let d : Dec (WorkerEnv := Test.env Test.never) :=
    Test.mkTestDecoder "oiio" (Some Test.clip) true in
  mkConfig (Returned (Some d)) (Returned (Some d))
    (mkShared (<[Some 100%nat := d]> ∅) None
       [(1%nat, EvLock); (1%nat, EvCacheGet (Some 100%nat));
        (1%nat, EvCreateFromID "oiio"); (1%nat, EvOpen (Some 100%nat) true);
        (1%nat, EvCacheAdd (Some 100%nat)); (1%nat, EvUnlock);
        (2%nat, EvLock); (2%nat, EvCacheGet (Some 100%nat)); (2%nat, EvUnlock)]).

End Sample.

(** ** Where an evaluation is, and what the spec asks of it *)



Section Evaluation.

Context {E : WorkerEnv}.

(** The evaluation of [node] over [range], started in [st], has come to the
    head of the parameters [params'] in the Database generation of [node']
    over [range'], with [database'] collected there and the worker in [st']:
    either in the node itself, or below the connected Input that the loop of
    the node is resolving. *)
Inductive evaluation_reaches
  : Node -> TimeRange -> RenderWorker Dec ->
    Node -> TimeRange -> list (NodeParam Node) -> NodeValueDatabase ->
    RenderWorker Dec -> Prop :=
  | reaches_in_node node range st params database st' :
      IsTrack node = false ->
      loop_reaches ProcessNode (InputTimeAdjustment node) range
        (parameters node) ∅ st params database st' ->
      evaluation_reaches node range st node range params database st'
  | reaches_below node range st input rest database st1 st2 connected
      node' range' params' database' st' :
      IsTrack node = false ->
      loop_reaches ProcessNode (InputTimeAdjustment node) range
        (parameters node) ∅ st (kInput input :: rest) database st1 ->
      IsCancelled st1 = (false, st2) ->
      get_connected_node input = Some connected ->
      evaluation_reaches connected (InputTimeAdjustment node (input_id input) range) st2
        node' range' params' database' st' ->
      evaluation_reaches node range st node' range' params' database' st'.

(** The evaluation as section 4.3 of the spec lays it out, step by step, as
    relations between the worker before and the result and worker after:
    [spec_evaluates] is steps 1 to 6 for a Descriptor, [spec_generates] the
    Database generation of step 3 over the parameters still to visit, and
    [spec_resolves] step 3c, where a connected Input "recurses into step 1
    with (connected Node, sub-range)".  Cancellation and the footage step are
    taken as the code has them. *)
Inductive spec_evaluates
  : Node -> TimeRange -> RenderWorker Dec -> NodeValueTable -> RenderWorker Dec -> Prop :=
  | spec_track node range st :
      IsTrack node = true ->
      spec_evaluates node range st (RenderBlock node range st).1 (RenderBlock node range st).2
  | spec_node node range st database st' :
      IsTrack node = false ->
      spec_generates (InputTimeAdjustment node) range (parameters node) ∅ st database st' ->
      spec_evaluates node range st
        (RunNodeAccelerated node range database (Value node database)) st'
with spec_generates
  : (nat -> TimeRange -> TimeRange) -> TimeRange -> list (NodeParam Node) ->
    NodeValueDatabase -> RenderWorker Dec -> NodeValueDatabase -> RenderWorker Dec -> Prop :=
  | spec_done adjust range database st :
      spec_generates adjust range [] database st database st
  | spec_cancelled adjust range param rest database st st1 :
      IsCancelled st = (true, st1) ->
      spec_generates adjust range (param :: rest) database st ∅ st1
  | spec_output adjust range out rest database st st1 database' st' :
      IsCancelled st = (false, st1) ->
      spec_generates adjust range rest database st1 database' st' ->
      spec_generates adjust range (kOutput out :: rest) database st database' st'
  | spec_input adjust range input rest database st st1 table st2 table' st3 database' st' :
      IsCancelled st = (false, st1) ->
      spec_resolves input (adjust (input_id input) range) st1 table st2 ->
      (if decide (data_type input = kFootage)
       then RetrieveFootage input (adjust (input_id input) range) table st2
       else (table, st2)) = (table', st3) ->
      spec_generates adjust range rest (<[input_id input := table']> database) st3
        database' st' ->
      spec_generates adjust range (kInput input :: rest) database st database' st'
with spec_resolves
  : NodeInput Node -> TimeRange -> RenderWorker Dec -> NodeValueTable ->
    RenderWorker Dec -> Prop :=
  | spec_connected input connected range st table st' :
      get_connected_node input = Some connected ->
      spec_evaluates connected range st table st' ->
      spec_resolves input range st table st'
  | spec_literal input range st :
      get_connected_node input = None ->
      spec_resolves input range st
        [(data_type input, get_value_at_time input (range_in range))] st.




End Evaluation.


(** The event is one of the resolution of [s]'s decoder or of a call into
    it. *)
Definition concerns_stream (s : Stream) (e : Event) : Prop :=
  match e with
  | EvLock | EvUnlock => True
  | EvCacheGet key | EvCacheAdd key | EvOpen key _
  | EvGetRetrieveState key _ | EvRetrieve key _ => key = Some (stream_addr s)
  | EvCreateFromID decoder_id => decoder_id = footage_decoder (footage s)
  | EvWarning file stream_index => file = filename (footage s) /\ stream_index = index s
  | EvFootageUnavailable stream _ _ _ => stream = Some s
  | EvIsCancelled _ | EvCompletedCache _ _ _ => False
  end.

(** ** Graphs to run the revisited properties on *)

Module Scenes.

Definition range_12_15 : TimeRange :=
  mkTimeRange (rational_of_int 12) (rational_of_int 15).

(** A node that asks its Input for [12, 15) whatever it is asked for, over
    the footage node of the slow stream. *)
Definition retimed : Node :=
  mkNode 5 false
    [kInput (mkNodeInput 7 kTexture (fun _ => QInvalid) (Some (Test.media 1 Test.slow)))]
    Test.count_inputs (fun _ _ => range_12_15).

Definition retimed_path : NodeDependency := mkNodeDependency retimed Test.range_10_20.

(** The worker in [Render] of [retimed_path], at the footage Input of the
    node below. *)
Definition at_footage : RenderWorker Test.TestDecoder :=
  mkRenderWorker true ∅ (Some retimed_path) 1 [EvIsCancelled false].

(** An Input that stores [clip] at time 0 and [movie] at every other time,
    connected to [five]. *)
Definition keyed_input : NodeInput Node :=
  mkNodeInput 1 kFootage
    (fun t => if Qeq_bool t (rational_of_int 0)
              then QStreamPtr (Some Test.clip) else QStreamPtr (Some Test.movie))
    (Some (Test.five 2)).

Definition keyed : Node :=
  mkNode 6 false [kInput keyed_input; kOutput 2] Test.count_inputs
    (fun _ _ => range_12_15).


End Scenes.

(** * Properties *)

(** ** Machine integers *)

Lemma wrap32_id z : is_int z -> wrap32 z = z.
Proof.
  unfold is_int, int_min, int_max, wrap32. intros Hz.
  rewrite Z.mod_small by lia. lia.
Qed.

Lemma quot_between a b : 0 < b -> Z.min a 0 <= Z.quot a b <= Z.max a 0.
Proof.
  intros Hb.
  destruct (Z.le_gt_cases 0 a) as [Ha|Ha].
  - pose proof (Z.quot_pos a b Ha Hb).
    pose proof (Z.quot_le_upper_bound a b a Hb).
    assert (a ÷ b <= a) by (apply H0; nia). lia.
  - pose proof (Z.quot_opp_l a b ltac:(lia)) as Hopp.
    assert (Hn : 0 <= - a) by lia.
    pose proof (Z.quot_pos (- a) b Hn Hb) as H1.
    pose proof (Z.quot_le_upper_bound (- a) b (- a) Hb ltac:(nia)) as H2.
    rewrite Hopp in H1, H2. lia.
Qed.

Lemma int_div_quot a b : is_int a -> 0 < b -> int_div a b = Z.quot a b.
Proof.
  intros Ha Hb. unfold int_div. apply wrap32_id.
  pose proof (quot_between a b Hb) as Hq.
  unfold is_int, int_min, int_max in *.
  change (2 ^ 31) with 2147483648 in *. lia.
Qed.

(** ** The still-image decoder *)

Section OIIO_properties.

Import OIIO.
Context {L : Library}.

Lemma Open_true d d' :
  Open d = Some (true, d') ->
  open_ d' = true /\
  exists s img buf,
    stream_ d = Some s /\
    ImageInput_open (filename (footage s)) = Some img /\
    buffer_ d' = Some buf /\
    width_ d' = spec_width (input_spec img) /\
    height_ d' = spec_height (input_spec img).
Proof.
  unfold Open. destruct (stream_ d) as [s|]; [|discriminate].
  destruct (ImageInput_open (filename (footage s))) as [img|] eqn:Himg;
    [|intros [=]].
  destruct (select_pix_fmt _ _) as [pf|]; intros [= <-]; simpl.
  split; [reflexivity|]. eauto 10.
Qed.

Lemma Open_false d d' : Open d = Some (false, d') -> open_ d' = open_ d.
Proof.
  unfold Open. destruct (stream_ d) as [s|]; [|discriminate].
  destruct (ImageInput_open _) as [img|].
  - destruct (select_pix_fmt _ _); intros [= <-]; reflexivity.
  - intros [= <-]; reflexivity.
Qed.

(** [open_] is true exactly when some [Open] of the decoder's life
    returned true. *)
Lemma after_calls_open calls : forall d opened d' opened',
  after_calls calls d opened = Some (d', opened') ->
  open_ d = opened -> open_ d' = opened'.
Proof.
  induction calls as [|c calls IH]; intros d opened d' opened' Hrun Hd; simpl in Hrun.
  - congruence.
  - destruct c as [s| |].
    + eapply IH; [exact Hrun|]. exact Hd.
    + destruct (Open d) as [[ok d1]|] eqn:Hopen; [|discriminate].
      eapply IH; [exact Hrun|]. destruct ok.
      * apply Open_true in Hopen as [-> _]. now rewrite orb_true_r.
      * apply Open_false in Hopen. rewrite orb_false_r. congruence.
    + eapply IH; [exact Hrun|]. exact Hd.
Qed.

Lemma RetrieveVideo_open d buf timecode divider :
  open_ d = true -> buffer_ d = Some buf ->
  exists f,
    RetrieveVideo d timecode divider = Some (Some f) /\
    frame_width f = int_div (width_ d) divider /\
    frame_height f = int_div (height_ d) divider /\
    frame_format f = pix_fmt_ d.
Proof.
  intros Hopen Hbuf. unfold RetrieveVideo. rewrite Hopen, Hbuf. simpl.
  destruct (ImageBufAlgo_resize _ _ _) as [ok data]. eexists. split; [reflexivity|].
  simpl. auto.
Qed.

(** C8.  A still-image decoder that [Open] has opened on an image of
    native size W x H answers [RetrieveVideo(t, divider)], for every time
    and every positive divider, with a frame of width W / divider and height
    H / divider, the quotients being those of integer division. *)
Theorem RetrieveVideo_divides_dimensions
  (d0 d : OIIODecoder) (s : Stream) (img : ImageInput)
  (timecode : rational) (divider : Z) :
  stream_ d0 = Some s ->
  ImageInput_open (filename (footage s)) = Some img ->
  Open d0 = Some (true, d) ->
  is_int (spec_width (input_spec img)) ->
  is_int (spec_height (input_spec img)) ->
  0 < divider ->
  exists f,
    RetrieveVideo d timecode divider = Some (Some f) /\
    frame_width f = Z.quot (spec_width (input_spec img)) divider /\
    frame_height f = Z.quot (spec_height (input_spec img)) divider.
Proof.
  intros Hs Himg Hopen Hw Hh Hdiv.
  apply Open_true in Hopen as (Ho & s' & img' & buf & Hs' & Himg' & Hbuf & Hwd & Hht).
  assert (s' = s) by congruence. subst s'.
  assert (img' = img) by congruence. subst img'.
  destruct (RetrieveVideo_open d buf timecode divider Ho Hbuf) as (f & Hf & Hfw & Hfh & _).
  exists f. split; [exact Hf|].
  rewrite Hfw, Hfh, Hwd, Hht. split; apply int_div_quot; assumption.
Qed.

(** C10.  Whatever the time asked about, [GetRetrieveState] answers
    [kFailedToOpen] for a decoder none of whose [Open] calls has succeeded
    and [kReady] for one that has been opened; it never answers
    [kNotReady], and the answer does not depend on the time. *)
Theorem GetRetrieveState_ready_iff_opened
  (uninit d : OIIODecoder) (calls : list Call) (opened : bool) (time : rational) :
  after_calls calls (OIIODecoder_new uninit) false = Some (d, opened) ->
  GetRetrieveState d time = (if opened then kReady else kFailedToOpen) /\
  GetRetrieveState d time <> kNotReady /\
  forall time', GetRetrieveState d time' = GetRetrieveState d time.
Proof.
  intros Hrun.
  apply after_calls_open in Hrun; [|reflexivity].
  unfold GetRetrieveState. rewrite Hrun.
  destruct opened; simpl; repeat split; congruence.
Qed.

End OIIO_properties.

Lemma RetrieveVideo_divides_dimensions_witness :
  exists f,
    OIIO.RetrieveVideo Test.clip_decoder (rational_of_int 3) 2 = Some (Some f) /\
    OIIO.frame_width f = Z.quot 1920 2 /\ OIIO.frame_height f = Z.quot 1080 2.
Proof.
  apply (RetrieveVideo_divides_dimensions (L := Test.library)
           (OIIO.set_stream (OIIO.OIIODecoder_new Test.stale_memory) (Some Test.clip))
           Test.clip_decoder Test.clip
           (OIIO.mkImageInput (OIIO.mkImageSpec 1920 1080 4 OIIO.UINT8) "clip.png")
           (rational_of_int 3) 2);
    try reflexivity; unfold is_int, int_min, int_max; simpl; lia.
Defined.

Lemma GetRetrieveState_ready_iff_opened_witness :
  OIIO.GetRetrieveState Test.closed_decoder (rational_of_int 5) = kReady /\
  OIIO.GetRetrieveState Test.closed_decoder (rational_of_int 5) <> kNotReady /\
  forall time',
    OIIO.GetRetrieveState Test.closed_decoder time'
    = OIIO.GetRetrieveState Test.closed_decoder (rational_of_int 5).
Proof.
  apply (GetRetrieveState_ready_iff_opened (L := Test.library)
           Test.stale_memory Test.closed_decoder
           [OIIO.CallSetStream (Some Test.lost); OIIO.CallOpen;
            OIIO.CallSetStream (Some Test.clip); OIIO.CallOpen; OIIO.CallClose]
           true (rational_of_int 5)).
  reflexivity.
Defined.

(** ** The worker *)

Section Worker_properties.

Context {E : WorkerEnv}.

Implicit Types (st : RenderWorker Dec) (range : TimeRange) (node : Node).

(** *** Unfolding the definitions *)

Lemma ProcessNode_unfold node range st :
  ProcessNode node range st =
  if IsTrack node then RenderBlock node range st
  else
    let (database, st') := GenerateDatabase node range st in
    (RunNodeAccelerated node range database (Value node database), st').
Proof.
  destruct node as [nid track params value adjust]; simpl.
  destruct track; [reflexivity|].
  unfold GenerateDatabase, bind, ret; simpl.
  destruct (GenerateDatabase_loop _ _ _ _ _ _); reflexivity.
Qed.

Lemma loop_cons PN adjust range param rest database st :
  GenerateDatabase_loop PN adjust range (param :: rest) database st =
  let (cancelled, st1) := IsCancelled st in
  if cancelled then (∅, st1)
  else
    let (database', st2) := GenerateDatabase_body PN adjust range param database st1 in
    GenerateDatabase_loop PN adjust range rest database' st2.
Proof.
  cbn [GenerateDatabase_loop]. unfold bind.
  destruct (IsCancelled st) as [[|] st1]; [reflexivity|].
  destruct (GenerateDatabase_body _ _ _ _ _ _); reflexivity.
Qed.

Lemma body_input PN adjust range input database st :
  GenerateDatabase_body PN adjust range (kInput input) database st =
  let input_time := adjust (input_id input) range in
  let (table, st1) := ProcessInput_with PN input input_time st in
  let (table', st2) :=
    if decide (data_type input = kFootage)
    then RetrieveFootage input input_time table st1
    else (table, st1) in
  (<[input_id input := table']> database, st2).
Proof.
  unfold GenerateDatabase_body, bind, ret, Database_Insert.
  destruct (ProcessInput_with _ _ _ _) as [table st1].
  destruct (decide _); [|reflexivity].
  destruct (RetrieveFootage _ _ _ _); reflexivity.
Qed.

Lemma IsCancelled_eq st :
  IsCancelled st =
  (cancel_signal (polls st),
   mkRenderWorker (started_ st) (decoder_cache_ st) (path_ st) (S (polls st))
     (trace st ++ [EvIsCancelled (cancel_signal (polls st))])).
Proof. reflexivity. Qed.

Lemma loop_reaches_run PN adjust range params database st params' database' st' :
  loop_reaches PN adjust range params database st params' database' st' ->
  GenerateDatabase_loop PN adjust range params database st =
  GenerateDatabase_loop PN adjust range params' database' st'.
Proof.
  induction 1 as [|param rest database st st1 database1 st2 ps' db' st' Hc Hb _ IH].
  - reflexivity.
  - rewrite loop_cons, Hc, Hb. exact IH.
Qed.

(** *** Resolving a decoder: the three ways through *)

Lemma Resolve_hit s d st :
  decoder_cache_ st !! Some (stream_addr s) = Some d ->
  ResolveDecoderFromInput (Some s) st =
  (Some d,
   emit_all [EvLock; EvCacheGet (Some (stream_addr s)); EvUnlock] st).
Proof.
  intros Hget.
  unfold ResolveDecoderFromInput, bind, ret, emit, DecoderCache_Get, emit_all; simpl.
  rewrite Hget; simpl. rewrite <- !app_assoc. reflexivity.
Qed.

Lemma Resolve_miss_opened s d' st :
  decoder_cache_ st !! Some (stream_addr s) = None ->
  Open (set_stream (CreateFromID (footage_decoder (footage s))) (Some s)) = (true, d') ->
  ResolveDecoderFromInput (Some s) st =
  (Some d',
   emit_all [EvLock; EvCacheGet (Some (stream_addr s));
             EvCreateFromID (footage_decoder (footage s));
             EvOpen (Some (stream_addr s)) true;
             EvCacheAdd (Some (stream_addr s)); EvUnlock]
     (with_cache (<[Some (stream_addr s) := d']> (decoder_cache_ st)) st)).
Proof.
  intros Hget Hopen.
  unfold ResolveDecoderFromInput, bind, ret, emit, DecoderCache_Get, DecoderCache_Add,
    emit_all, with_cache; simpl.
  rewrite Hget; simpl. rewrite Hopen; simpl. rewrite <- !app_assoc. reflexivity.
Qed.

Lemma Resolve_miss_failed s d' st :
  decoder_cache_ st !! Some (stream_addr s) = None ->
  Open (set_stream (CreateFromID (footage_decoder (footage s))) (Some s)) = (false, d') ->
  ResolveDecoderFromInput (Some s) st =
  (None,
   emit_all [EvLock; EvCacheGet (Some (stream_addr s));
             EvCreateFromID (footage_decoder (footage s));
             EvOpen (Some (stream_addr s)) false;
             EvWarning (filename (footage s)) (index s); EvUnlock] st).
Proof.
  intros Hget Hopen.
  unfold ResolveDecoderFromInput, bind, ret, emit, DecoderCache_Get, emit_all; simpl.
  rewrite Hget; simpl. rewrite Hopen; simpl. rewrite <- !app_assoc. reflexivity.
Qed.

(** Whichever way it goes, the call starts by taking the lock and asking the
    cache for the stream, ends by releasing the lock, and leaves the
    worker's own fields alone. *)
Lemma Resolve_frame s st :
  exists mid,
    trace (ResolveDecoderFromInput (Some s) st).2 =
      trace st ++ EvLock :: EvCacheGet (Some (stream_addr s)) :: mid ++ [EvUnlock] /\
    Forall (fun e => e <> EvLock /\ e <> EvUnlock) mid /\
    path_ (ResolveDecoderFromInput (Some s) st).2 = path_ st /\
    polls (ResolveDecoderFromInput (Some s) st).2 = polls st.
Proof.
  destruct (decoder_cache_ st !! Some (stream_addr s)) as [d|] eqn:Hget.
  - rewrite (Resolve_hit s d st Hget). exists []. simpl. auto.
  - destruct (Open (set_stream (CreateFromID (footage_decoder (footage s))) (Some s)))
      as [[|] d'] eqn:Hopen.
    + rewrite (Resolve_miss_opened s d' st Hget Hopen).
      eexists [_; _; _]. simpl. split; [reflexivity|].
      split; [|auto]. repeat constructor; discriminate.
    + rewrite (Resolve_miss_failed s d' st Hget Hopen).
      eexists [_; _; _]. simpl. split; [reflexivity|].
      split; [|auto]. repeat constructor; discriminate.
Qed.

(** *** The footage exception *)

Lemma call_Retrieve_eq s d range st :
  call_RetrieveFromDecoder s d range st =
  ((RetrieveFromDecoder d range).1,
   emit_all [EvRetrieve (Some (stream_addr s)) range]
     (with_cache (<[Some (stream_addr s) := (RetrieveFromDecoder d range).2]>
                    (decoder_cache_ st)) st)).
Proof.
  unfold call_RetrieveFromDecoder, bind, emit, emit_all, with_cache; simpl.
  destruct (RetrieveFromDecoder d range); reflexivity.
Qed.

Lemma RetrieveFootage_no_stream input input_time table st :
  ResolveStreamFromInput input = None ->
  RetrieveFootage input input_time table st = (table, st).
Proof. intros Hs. unfold RetrieveFootage. rewrite Hs. reflexivity. Qed.

Lemma RetrieveFootage_no_decoder input input_time table st s st1 :
  ResolveStreamFromInput input = Some s ->
  ResolveDecoderFromInput (Some s) st = (None, st1) ->
  RetrieveFootage input input_time table st = (table, st1).
Proof.
  intros Hs Hd. unfold RetrieveFootage. rewrite Hs. unfold bind. rewrite Hd.
  reflexivity.
Qed.

Lemma RetrieveFootage_ready input input_time table st s d st1 :
  ResolveStreamFromInput input = Some s ->
  ResolveDecoderFromInput (Some s) st = (Some d, st1) ->
  GetRetrieveState d (range_out input_time) = kReady ->
  RetrieveFootage input input_time table st =
  (match (RetrieveFromDecoder d input_time).1 with
   | Some f => FrameToValue s f table
   | None => table
   end,
   emit_all [EvGetRetrieveState (Some (stream_addr s)) (range_out input_time);
             EvRetrieve (Some (stream_addr s)) input_time]
     (with_cache (<[Some (stream_addr s) := (RetrieveFromDecoder d input_time).2]>
                    (decoder_cache_ st1)) st1)).
Proof.
  intros Hs Hd Hready. unfold RetrieveFootage. rewrite Hs. unfold bind at 1.
  rewrite Hd. unfold bind at 1. rewrite Hready.
  destruct (decide (kReady = kReady)) as [_|Hne]; [|congruence].
  unfold bind, emit; cbn beta iota. rewrite call_Retrieve_eq.
  unfold emit_all, with_cache, ret; simpl. rewrite <- !app_assoc.
  destruct ((RetrieveFromDecoder d input_time).1); reflexivity.
Qed.

Lemma RetrieveFootage_unavailable input input_time table st s d st1 :
  ResolveStreamFromInput input = Some s ->
  ResolveDecoderFromInput (Some s) st = (Some d, st1) ->
  GetRetrieveState d (range_out input_time) <> kReady ->
  RetrieveFootage input input_time table st =
  (table,
   emit_all [EvGetRetrieveState (Some (stream_addr s)) (range_out input_time);
             EvFootageUnavailable (Some s) (GetRetrieveState d (range_out input_time))
               (default (mkTimeRange (rational_of_int 0) (rational_of_int 0))
                  (path_range st1))
               (range_out input_time)] st1).
Proof.
  intros Hs Hd Hnot. unfold RetrieveFootage. rewrite Hs. unfold bind at 1.
  rewrite Hd. unfold bind at 1.
  destruct (decide _) as [Heq|_]; [contradiction|].
  unfold bind, ReportUnavailableFootage, emit, emit_all, ret, path_range; simpl.
  rewrite <- !app_assoc. reflexivity.
Qed.

(** *** Induction over the graph below a node *)

Definition below (P : Node -> Prop) (param : NodeParam Node) : Prop :=
  match param with
  | kInput input =>
    match get_connected_node input with
    | Some connected => P connected
    | None => True
    end
  | kOutput _ => True
  end.

Lemma Node_graph_ind (P : Node -> Prop) :
  (forall nid track params value adjust,
      Forall (below P) params -> P (mkNode nid track params value adjust)) ->
  forall node, P node.
Proof.
  intros Hstep. fix IH 1. intros [nid track params value adjust].
  apply Hstep.
  induction params as [|param params IHparams]; constructor; [|exact IHparams].
  destruct param as [[iid ty val [connected|]]|]; simpl; [apply IH|exact I|exact I].
Qed.

(** *** The descriptor under evaluation

    [path_] is private to [RenderWorker] and written by [Render] alone; a
    backend's [RenderBlock] cannot reach it. *)

Lemma Render_unfold path job_time st :
  Render path job_time st =
  let st0 := mkRenderWorker (started_ st) (decoder_cache_ st) (Some path)
               (polls st) (trace st) in
  let (data, st1) := ProcessNode (dep_node path) (dep_range path) st0 in
  (tt, emit_all [EvCompletedCache path data job_time] st1).
Proof.
  unfold Render, RenderInternal, bind, set_path, emit, emit_all; simpl.
  destruct (ProcessNode _ _ _); reflexivity.
Qed.

Lemma RetrieveFootage_keeps_path input input_time table st :
  path_ (RetrieveFootage input input_time table st).2 = path_ st.
Proof.
  destruct (ResolveStreamFromInput input) as [s|] eqn:Hs.
  - destruct (Resolve_frame s st) as (mid & _ & _ & Hpath & _).
    destruct (ResolveDecoderFromInput (Some s) st) as [[d|] st1] eqn:Hd.
    + destruct (decide (GetRetrieveState d (range_out input_time) = kReady)) as [Hr|Hr].
      * rewrite (RetrieveFootage_ready _ _ _ _ _ _ _ Hs Hd Hr). exact Hpath.
      * rewrite (RetrieveFootage_unavailable _ _ _ _ _ _ _ Hs Hd Hr). exact Hpath.
    + rewrite (RetrieveFootage_no_decoder _ _ _ _ _ _ Hs Hd). exact Hpath.
  - rewrite (RetrieveFootage_no_stream _ _ _ _ Hs). reflexivity.
Qed.

Lemma ProcessNode_keeps_path :
  (forall node range st, path_ (RenderBlock node range st).2 = path_ st) ->
  forall node range st, path_ (ProcessNode node range st).2 = path_ st.
Proof.
  intros Hblock node. induction node as [nid track params value adjust IH]
    using Node_graph_ind.
  intros range st. rewrite ProcessNode_unfold. simpl.
  destruct track; [apply Hblock|].
  unfold GenerateDatabase; simpl.
  enough (Hloop : forall database st,
             path_ (GenerateDatabase_loop ProcessNode adjust range params database st).2
             = path_ st).
  { specialize (Hloop ∅ st). destruct (GenerateDatabase_loop _ _ _ _ _ _). exact Hloop. }
  clear st. induction IH as [|param params Hparam _ IHparams]; intros database st.
  - reflexivity.
  - rewrite loop_cons, IsCancelled_eq.
    destruct (cancel_signal (polls st)); [reflexivity|].
    destruct (GenerateDatabase_body _ _ _ _ _ _) as [database' st2] eqn:Hbody.
    rewrite IHparams.
    destruct param as [input|out]; [|injection Hbody as _ <-; reflexivity].
    rewrite body_input in Hbody. cbv zeta in Hbody.
    destruct (ProcessInput_with ProcessNode input _ _) as [table st1] eqn:Hinput.
    assert (Hst1 : path_ st1 = path_ st).
    { unfold ProcessInput_with in Hinput. simpl in Hparam.
      destruct (get_connected_node input) as [connected|].
      - specialize (Hparam (adjust (input_id input) range)
                      (mkRenderWorker (started_ st) (decoder_cache_ st) (path_ st)
                         (S (polls st)) (trace st ++ [EvIsCancelled false]))).
        rewrite Hinput in Hparam. exact Hparam.
      - injection Hinput as _ <-. reflexivity. }
    destruct (decide _).
    + pose proof (RetrieveFootage_keeps_path input (adjust (input_id input) range)
                    table st1) as Hf.
      destruct (RetrieveFootage _ _ _ _). injection Hbody as _ <-.
      simpl in Hf. congruence.
    + injection Hbody as _ <-. exact Hst1.
Qed.

(** *** Cancellation *)

(** C1, as the code has it.  When the loop of [GenerateDatabase] comes to a
    parameter and the poll there finds the cancellation flag set,
    [GenerateDatabase] stops at once and returns the empty Database,
    whatever it had collected; nothing but the poll is done.  [ProcessNode]
    goes on with it: the caller receives the node's [Value] of the empty
    Database. *)
Theorem cancelled_generation_returns_empty_database
  node range st param rest database1 st1 :
  IsTrack node = false ->
  loop_reaches ProcessNode (InputTimeAdjustment node) range
    (parameters node) ∅ st (param :: rest) database1 st1 ->
  cancel_signal (polls st1) = true ->
  GenerateDatabase node range st = (∅, (IsCancelled st1).2) /\
  ProcessNode node range st = (Value node ∅, (IsCancelled st1).2) /\
  trace (IsCancelled st1).2 = trace st1 ++ [EvIsCancelled true] /\
  decoder_cache_ (IsCancelled st1).2 = decoder_cache_ st1.
Proof.
  intros Htrack Hreach Hflag.
  assert (Hgen : GenerateDatabase node range st = (∅, (IsCancelled st1).2)).
  { unfold GenerateDatabase. rewrite (loop_reaches_run _ _ _ _ _ _ _ _ _ Hreach).
    rewrite loop_cons, IsCancelled_eq, Hflag. reflexivity. }
  split; [exact Hgen|]. split.
  - rewrite ProcessNode_unfold, Htrack, Hgen. reflexivity.
  - rewrite IsCancelled_eq, Hflag. split; reflexivity.
Qed.

(** *** Decoders that fail to open *)

(** C2.  A footage Input whose Stream has no cached Decoder and whose new
    Decoder fails to open: the failure is logged as a warning, [Add] is not
    called and the cache still has nothing for the Stream; the Input's
    Table goes into the Database as [ProcessInput] made it, without frame
    data, and the loop goes on with the parameters that follow. *)
Theorem failed_open_is_not_cached
  adjust range input rest database st table st1 s d' :
  cancel_signal (polls st) = false ->
  data_type input = kFootage ->
  ResolveStreamFromInput input = Some s ->
  ProcessInput input (adjust (input_id input) range) (IsCancelled st).2 = (table, st1) ->
  decoder_cache_ st1 !! Some (stream_addr s) = None ->
  Open (set_stream (CreateFromID (footage_decoder (footage s))) (Some s)) = (false, d') ->
  let events :=
    [EvLock; EvCacheGet (Some (stream_addr s));
     EvCreateFromID (footage_decoder (footage s));
     EvOpen (Some (stream_addr s)) false;
     EvWarning (filename (footage s)) (index s); EvUnlock] in
  let st2 := emit_all events st1 in
  ResolveDecoderFromInput (Some s) st1 = (None, st2) /\
  decoder_cache_ st2 = decoder_cache_ st1 /\
  decoder_cache_ st2 !! Some (stream_addr s) = None /\
  ~ In (EvCacheAdd (Some (stream_addr s))) events /\
  GenerateDatabase_loop ProcessNode adjust range (kInput input :: rest) database st =
  GenerateDatabase_loop ProcessNode adjust range rest
    (<[input_id input := table]> database) st2.
Proof.
  intros Hflag Hty Hs Hinput Hmiss Hopen events st2.
  pose proof (Resolve_miss_failed s d' st1 Hmiss Hopen) as Hres.
  split; [exact Hres|]. split; [reflexivity|]. split; [exact Hmiss|]. split.
  { simpl. intros [H|[H|[H|[H|[H|[H|[]]]]]]]; discriminate. }
  rewrite loop_cons. rewrite IsCancelled_eq in *. rewrite Hflag in *. simpl in Hinput.
  rewrite body_input. cbv zeta. unfold ProcessInput in Hinput. rewrite Hinput.
  destruct (decide (data_type input = kFootage)) as [_|Hne]; [|contradiction].
  rewrite (RetrieveFootage_no_decoder _ _ _ _ _ _ Hs Hres). reflexivity.
Qed.

(** *** Footage that is ready, and footage that is not *)

(** *** Inputs *)

(** C4.  Resolving an unconnected Input over a sub-range gives a new Table
    holding one entry, the Input's own value sampled at the start of the
    sub-range under the Input's data type; the worker is left as it was, so
    that every resolution of the same Input over the same sub-range gives
    the same Table. *)
Theorem ProcessInput_unconnected_samples_start input range st :
  IsConnected input = false ->
  ProcessInput input range st =
    ([(data_type input, get_value_at_time input (range_in range))], st) /\
  forall st', (ProcessInput input range st').1 = (ProcessInput input range st).1.
Proof.
  intros Hc. unfold IsConnected in Hc. unfold ProcessInput, ProcessInput_with.
  destruct (get_connected_node input); [discriminate|].
  split; [reflexivity|]. intros st'. reflexivity.
Qed.


End Worker_properties.

(** ** Two workers and one cache *)

Section Concurrent_properties.

Context {E : WorkerEnv}.


(** The steps of a thread left alone are the statements of
    [ResolveDecoderFromInput], one after the other. *)
Lemma run_alone_agrees tid stream st :
  let result := ResolveDecoderFromInput stream st in
  exists log,
    run_alone 6 tid stream AtLock (mkShared (decoder_cache_ st) None []) =
      (Returned result.1, mkShared (decoder_cache_ result.2) None log) /\
    trace result.2 = trace st ++ map snd log.
Proof.
  unfold ResolveDecoderFromInput, bind, ret, emit, DecoderCache_Get, DecoderCache_Add.
  simpl.
  destruct (decoder_cache_ st !! StreamPtr_get stream) as [d|] eqn:Hget; simpl.
  - destruct stream; simpl; eexists; (split; [reflexivity|]);
      simpl; rewrite <- !app_assoc; reflexivity.
  - destruct stream as [s|]; simpl.
    + destruct (Open _) as [[|] d']; simpl; eexists; (split; [reflexivity|]);
        simpl; rewrite <- !app_assoc; reflexivity.
    + eexists; (split; [reflexivity|]). simpl; rewrite <- !app_assoc; reflexivity.
Qed.

Lemma mutex_ok_step s1 s2 c c' :
  sched_step s1 s2 c c' -> mutex_ok c -> mutex_ok c'.
Proof.
  intros Hstep [H1 H2]. unfold mutex_ok.
  destruct Hstep as [c pc' sh' Hs|c pc' sh' Hs]; simpl;
    destruct c as [w1 w2 [cache mutex log]]; simpl in *.
  - destruct w1; simpl in Hs.
    + destruct mutex; [discriminate|]. injection Hs as <- <-. simpl.
      split; [tauto|]. rewrite H2. split; discriminate.
    + injection Hs as <- <-. simpl. tauto.
    + destruct decoder, s1; injection Hs as <- <-; simpl; tauto.
    + destruct (Open decoder) as [[|] d']; injection Hs as <- <-; simpl; tauto.
    + injection Hs as <- <-. simpl. tauto.
    + destruct s1; injection Hs as <- <-; simpl; tauto.
    + injection Hs as <- <-. simpl.
      assert (mutex = Some 1%nat) by (apply H1; reflexivity). subst mutex.
      split; [split; discriminate|]. rewrite H2. split; discriminate.
    + discriminate.
  - destruct w2; simpl in Hs.
    + destruct mutex; [discriminate|]. injection Hs as <- <-. simpl.
      split; [|tauto]. rewrite H1. split; discriminate.
    + injection Hs as <- <-. simpl. tauto.
    + destruct decoder, s2; injection Hs as <- <-; simpl; tauto.
    + destruct (Open decoder) as [[|] d']; injection Hs as <- <-; simpl; tauto.
    + injection Hs as <- <-. simpl. tauto.
    + destruct s2; injection Hs as <- <-; simpl; tauto.
    + injection Hs as <- <-. simpl.
      assert (mutex = Some 2%nat) by (apply H2; reflexivity). subst mutex.
      split; [|split; discriminate]. rewrite H1. split; discriminate.
    + discriminate.
Qed.

Lemma mutex_ok_reachable s1 s2 cache c :
  reachable s1 s2 cache c -> mutex_ok c.
Proof.
  unfold reachable. revert c. apply rtc_ind_r.
  - split; simpl; split; discriminate.
  - intros c c' _ Hstep IH. eapply mutex_ok_step; eassumption.
Qed.











End Concurrent_properties.

(** ** The properties at work in the small environment *)

Section Runs.

Import Test.

(** The second Input of [two_inputs] is about to be resolved when the flag
    is found set: the node's [Value] of the empty Database comes back. *)
Lemma cancelled_generation_returns_empty_database_witness :
  ProcessNode (E := env (from 1)) (two_inputs 1 clip) range_10_20 fresh
  = ([(kInt, QInt 0)],
     mkRenderWorker true ∅ None 2 [EvIsCancelled false; EvIsCancelled true]).
Proof.
  refine (proj1 (proj2
    (cancelled_generation_returns_empty_database (E := env (from 1))
       (two_inputs 1 clip) range_10_20 fresh
       (kInput (footage_input 1 clip)) []
       (<[3%nat := [(kInt, QInt 5)]]> ∅) st_polled
       eq_refl _ eq_refl))).
  eapply reaches_next; [reflexivity|reflexivity|apply reaches_here].
Defined.

(** C1 as stated fails: with the flag set at the first parameter of
    [media], the caller is handed a Table that is not empty. *)
Lemma cancelled_node_returns_nonempty_table :
  cancel_signal (WorkerEnv := env (from 0)) (polls fresh) = true /\
  (ProcessNode (E := env (from 0)) (media 1 clip) range_10_20 fresh).1
    = [(kInt, QInt 0)] /\
  (ProcessNode (E := env (from 0)) (media 1 clip) range_10_20 fresh).1 <> [].
Proof. split; [reflexivity|]. split; [reflexivity|]. discriminate. Qed.


Lemma failed_open_is_not_cached_witness :
  let st1 := st_polled in
  let events :=
    [EvLock; EvCacheGet (Some 101%nat); EvCreateFromID "oiio";
     EvOpen (Some 101%nat) false; EvWarning "missing.png" 0; EvUnlock] in
  ResolveDecoderFromInput (E := env never) (Some lost) st1 = (None, emit_all (E := env never) events st1) /\
  decoder_cache_ (emit_all (E := env never) events st1) = decoder_cache_ st1 /\
  decoder_cache_ (emit_all (E := env never) events st1) !! Some 101%nat = None /\
  ~ In (EvCacheAdd (Some 101%nat)) events /\
  GenerateDatabase_loop (E := env never) ProcessNode same range_10_20
    [kInput (footage_input 1 lost); kOutput 2] ∅ fresh =
  GenerateDatabase_loop (E := env never) ProcessNode same range_10_20
    [kOutput 2] (<[1%nat := [(kFootage, QStreamPtr (Some lost))]]> ∅)
    (emit_all (E := env never) events st1).
Proof.
  exact (failed_open_is_not_cached (E := env never) same range_10_20
           (footage_input 1 lost) [kOutput 2] ∅ fresh
           [(kFootage, QStreamPtr (Some lost))] st_polled lost
           (mkTestDecoder "oiio" (Some lost) false)
           eq_refl eq_refl eq_refl eq_refl eq_refl eq_refl).
Defined.

(** C3 as stated fails: the decoder of [movie] is ready and gives no frame;
    nothing is pushed, although every value [FrameToValue] derives would
    have made the Table longer. *)
Lemma ready_decoder_without_frame_pushes_nothing :
  let d := mkTestDecoder "ffmpeg" (Some movie) true in
  let result :=
    RetrieveFootage (E := env never) (footage_input 1 movie) range_10_20 []
      (st_rendering movie) in
  (ResolveDecoderFromInput (E := env never) (Some movie) (st_rendering movie)).1 = Some d /\
  GetRetrieveState (WorkerEnv := env never) d (range_out range_10_20) = kReady /\
  result.1 = [] /\
  (forall frame, FrameToValue (WorkerEnv := env never) movie frame [] <> []) /\
  ~ exists frame, result.1 = FrameToValue (WorkerEnv := env never) movie frame [].
Proof.
  simpl. split; [reflexivity|]. split; [reflexivity|]. split; [reflexivity|].
  split; [intros frame; discriminate|]. intros [frame H]. discriminate H.
Qed.

Lemma ProcessInput_unconnected_samples_start_witness :
  ProcessInput (E := env never) (literal 3 kInt (QInt 5)) range_10_20 fresh
    = ([(kInt, QInt 5)], fresh) /\
  forall st',
    (ProcessInput (E := env never) (literal 3 kInt (QInt 5)) range_10_20 st').1
    = (ProcessInput (E := env never) (literal 3 kInt (QInt 5)) range_10_20 fresh).1.
Proof.
  exact (ProcessInput_unconnected_samples_start (E := env never)
           (literal 3 kInt (QInt 5)) range_10_20 fresh eq_refl).
Defined.

(** The Input of [viewer] is connected and evaluated over [10, 20): the
    cache is asked for the Stream the Input itself stores at time 0. *)
Example footage_stream_of_connected_input :
  trace (RetrieveFootage (E := env never)
           (mkNodeInput 1 kFootage (fun _ => QStreamPtr (Some clip)) (Some (five 2)))
           range_10_20 [] fresh).2
  = [EvLock; EvCacheGet (Some 100%nat); EvCreateFromID "oiio";
     EvOpen (Some 100%nat) true; EvCacheAdd (Some 100%nat); EvUnlock;
     EvGetRetrieveState (Some 100%nat) (rational_of_int 20);
     EvRetrieve (Some 100%nat) range_10_20].
Proof. reflexivity. Qed.



End Runs.


(** * Further properties *)

(** ** Starting and stopping the worker *)

Section Worker_lifecycle.

Context {E : WorkerEnv}.

Implicit Types (st : RenderWorker Dec).

Lemma Init_started st : (Init st).1 = started_ (Init st).2.
Proof.
  unfold Init. destruct (started_ st) eqn:Hs; simpl; [congruence|].
  destruct (InitInternal st) as [[|] st1]; reflexivity.
Qed.

(** X1.  What [Init] returns is what [IsStarted] says afterwards, whatever
    the backend's [InitInternal] and [CloseInternal] do; after [Close] the
    worker is not started. *)
Theorem Init_returns_IsStarted st :
  (Init st).1 = (IsStarted (Init st).2).1 /\
  (IsStarted (Close st).2).1 = false.
Proof.
  split; [|reflexivity]. unfold IsStarted. simpl. apply Init_started.
Qed.

(** X2.  Once [Init] has succeeded, calling it again returns true and
    changes nothing: [InitInternal] is not run a second time. *)
Theorem Init_idempotent st st1 :
  Init st = (true, st1) -> Init st1 = (true, st1).
Proof.
  intros Hinit.
  pose proof (Init_started st) as Hs.
  rewrite Hinit in Hs. simpl in Hs.
  unfold Init. rewrite <- Hs. reflexivity.
Qed.

End Worker_lifecycle.

Lemma Init_idempotent_witness :
  let st1 := mkRenderWorker true ∅ None 0 [] in
  Init (E := Test.env Test.never) st1 = (true, st1).
Proof.
  exact (Init_idempotent (E := Test.env Test.never)
           (mkRenderWorker false ∅ None 0 []) (mkRenderWorker true ∅ None 0 []) eq_refl).
Defined.

(** ** Resolving decoders, again and again *)

Section Resolve_more.

Context {E : WorkerEnv}.

Implicit Types (st : RenderWorker Dec).

(** X3.  A Stream whose Decoder is in the cache gets that Decoder: nothing is
    created or opened, nothing is added, the cache is as it was. *)
Theorem cached_decoder_is_reused s d st :
  decoder_cache_ st !! Some (stream_addr s) = Some d ->
  exists events,
    ResolveDecoderFromInput (Some s) st = (Some d, emit_all events st) /\
    forallb (fun e => negb (is_decoder_io e)) events = true /\
    ~ In (EvCacheAdd (Some (stream_addr s))) events /\
    decoder_cache_ (emit_all events st) = decoder_cache_ st.
Proof.
  intros Hget. eexists. split; [apply Resolve_hit; exact Hget|].
  split; [reflexivity|]. split; [|reflexivity].
  simpl. intros [H|[H|[H|[]]]]; discriminate.
Qed.

(** X4.  A Stream that is resolved twice is opened once: the first call
    misses, makes the Decoder, opens it and adds it; the second call finds it
    and returns the same Decoder with no call into it. *)
Theorem second_resolution_hits s d' st :
  decoder_cache_ st !! Some (stream_addr s) = None ->
  Open (set_stream (CreateFromID (footage_decoder (footage s))) (Some s)) = (true, d') ->
  let first := ResolveDecoderFromInput (Some s) st in
  let second := ResolveDecoderFromInput (Some s) first.2 in
  first.1 = Some d' /\
  second.1 = Some d' /\
  decoder_cache_ second.2 = decoder_cache_ first.2 /\
  trace second.2 =
    trace first.2 ++ [EvLock; EvCacheGet (Some (stream_addr s)); EvUnlock].
Proof.
  intros Hmiss Hopen first second. subst second first.
  rewrite (Resolve_miss_opened s d' st Hmiss Hopen). simpl.
  rewrite (Resolve_hit s d').
  - repeat split; reflexivity.
  - simpl. apply lookup_insert_eq.
Qed.

(** X5.  A Decoder that failed to open is not remembered as failed: the next
    resolution of the Stream makes a Decoder and tries [Open] again. *)
Theorem failed_open_is_retried s d' st :
  decoder_cache_ st !! Some (stream_addr s) = None ->
  Open (set_stream (CreateFromID (footage_decoder (footage s))) (Some s)) = (false, d') ->
  let attempt :=
    [EvLock; EvCacheGet (Some (stream_addr s));
     EvCreateFromID (footage_decoder (footage s));
     EvOpen (Some (stream_addr s)) false;
     EvWarning (filename (footage s)) (index s); EvUnlock] in
  let first := ResolveDecoderFromInput (Some s) st in
  let second := ResolveDecoderFromInput (Some s) first.2 in
  first.1 = None /\ second.1 = None /\
  trace second.2 = trace st ++ attempt ++ attempt.
Proof.
  intros Hmiss Hopen attempt first second. subst second first attempt.
  rewrite (Resolve_miss_failed s d' st Hmiss Hopen). simpl.
  rewrite (Resolve_miss_failed s d'); [|exact Hmiss|exact Hopen].
  simpl. rewrite <- app_assoc. repeat split; reflexivity.
Qed.

(** X6.  For a null Stream no Decoder is ever made: the call takes the lock,
    asks the cache for the null key, gives the lock back and returns what the
    cache had there. *)
Theorem null_stream_creates_nothing st :
  ResolveDecoderFromInput None st =
  (decoder_cache_ st !! None,
   emit_all [EvLock; EvCacheGet None; EvUnlock] st).
Proof.
  unfold ResolveDecoderFromInput, bind, ret, emit, DecoderCache_Get, emit_all; simpl.
  destruct (decoder_cache_ st !! None); simpl; rewrite <- !app_assoc; reflexivity.
Qed.

End Resolve_more.

Lemma cached_decoder_is_reused_witness :
  let d := Test.mkTestDecoder "oiio" (Some Test.clip) true in
  let st := with_cache (E := Test.env Test.never) (<[Some 100%nat := d]> ∅) Test.fresh in
  exists events,
    ResolveDecoderFromInput (E := Test.env Test.never) (Some Test.clip) st
      = (Some d, emit_all (E := Test.env Test.never) events st) /\
    forallb (fun e => negb (is_decoder_io e)) events = true /\
    ~ In (EvCacheAdd (Some 100%nat)) events /\
    decoder_cache_ (emit_all (E := Test.env Test.never) events st) = decoder_cache_ st.
Proof.
  exact (cached_decoder_is_reused (E := Test.env Test.never) Test.clip
           (Test.mkTestDecoder "oiio" (Some Test.clip) true)
           (with_cache (E := Test.env Test.never)
              (<[Some 100%nat := Test.mkTestDecoder "oiio" (Some Test.clip) true]> ∅)
              Test.fresh)
           eq_refl).
Defined.

Lemma second_resolution_hits_witness :
  let d := Test.mkTestDecoder "oiio" (Some Test.clip) true in
  let first := ResolveDecoderFromInput (E := Test.env Test.never) (Some Test.clip) Test.fresh in
  let second := ResolveDecoderFromInput (E := Test.env Test.never) (Some Test.clip) first.2 in
  first.1 = Some d /\ second.1 = Some d /\
  decoder_cache_ second.2 = decoder_cache_ first.2 /\
  trace second.2 = trace first.2 ++ [EvLock; EvCacheGet (Some 100%nat); EvUnlock].
Proof.
  exact (second_resolution_hits (E := Test.env Test.never) Test.clip
           (Test.mkTestDecoder "oiio" (Some Test.clip) true) Test.fresh eq_refl eq_refl).
Defined.

Lemma failed_open_is_retried_witness :
  let attempt :=
    [EvLock; EvCacheGet (Some 101%nat); EvCreateFromID "oiio";
     EvOpen (Some 101%nat) false; EvWarning "missing.png" 0; EvUnlock] in
  let first := ResolveDecoderFromInput (E := Test.env Test.never) (Some Test.lost) Test.fresh in
  let second := ResolveDecoderFromInput (E := Test.env Test.never) (Some Test.lost) first.2 in
  first.1 = None /\ second.1 = None /\
  trace second.2 = trace Test.fresh ++ attempt ++ attempt.
Proof.
  exact (failed_open_is_retried (E := Test.env Test.never) Test.lost
           (Test.mkTestDecoder "oiio" (Some Test.lost) false) Test.fresh eq_refl eq_refl).
Defined.

(** ** What a Database generation leaves behind *)

Section Database_more.

Context {E : WorkerEnv}.

Implicit Types (st : RenderWorker Dec) (range : TimeRange) (node : Node).

Lemma only_polls_refl st : only_polls st st.
Proof. split; [reflexivity|]. exists []. rewrite app_nil_r. split; reflexivity. Qed.

Lemma only_polls_trans st1 st2 st3 :
  only_polls st1 st2 -> only_polls st2 st3 -> only_polls st1 st3.
Proof.
  intros [Hc1 (e1 & Ht1 & Hp1)] [Hc2 (e2 & Ht2 & Hp2)]. split; [congruence|].
  exists (e1 ++ e2). rewrite Ht2, Ht1, <- app_assoc. split; [reflexivity|].
  rewrite forallb_app, Hp1, Hp2. reflexivity.
Qed.

Lemma only_polls_IsCancelled st : only_polls st (IsCancelled st).2.
Proof.
  rewrite IsCancelled_eq. split; [reflexivity|]. eexists [_]. split; reflexivity.
Qed.

Set Warnings "-clear-no-such-hyp".

(** X7.  When the cancellation flag stays down, the Database a node's
    generation returns has a Table for each Input of the node and for nothing
    else, whatever the Inputs are connected to. *)
Theorem database_has_every_input node range st :
  (forall k, cancel_signal k = false) ->
  dom (GenerateDatabase node range st).1
  = list_to_set (param_input_ids (parameters node)).
Proof.
  intros Hnever. unfold GenerateDatabase.
  enough (Hloop : forall params database st,
             dom (GenerateDatabase_loop ProcessNode (InputTimeAdjustment node) range
                    params database st).1
             = dom database ∪ list_to_set (param_input_ids params)).
  { rewrite Hloop, dom_empty_L. set_solver. }
  clear st. induction params as [|param params IH]; intros database st.
  - simpl. set_solver.
  - rewrite loop_cons, IsCancelled_eq, Hnever.
    destruct (GenerateDatabase_body _ _ _ _ _ _) as [database' st2] eqn:Hbody.
    rewrite IH. destruct param as [input|out].
    + rewrite body_input in Hbody. cbv zeta in Hbody.
      destruct (ProcessInput_with ProcessNode input _ _) as [table st1].
      destruct (if decide (data_type input = kFootage) then _ else _) as [table' st3].
      injection Hbody as <- _. rewrite dom_insert_L. simpl. set_solver.
    + injection Hbody as <- _. simpl. set_solver.
Qed.

Set Warnings "clear-no-such-hyp".

(** X8.  Evaluating a graph in which no node is a track and no Input has
    type [kFootage] never reaches the decoder cache or a decoder: the cache is
    left as it was and the only thing done to the outside is polling the
    cancellation flag. *)
Theorem footage_free_evaluation_only_polls node range st :
  footage_free node = true ->
  only_polls st (ProcessNode node range st).2.
Proof.
  revert range st.
  induction node as [nid track params value adjust IH] using Node_graph_ind.
  intros range st Hfree. simpl in Hfree.
  apply andb_true_iff in Hfree as [Htrack Hparams].
  apply negb_true_iff in Htrack. subst track.
  rewrite ProcessNode_unfold. simpl. unfold GenerateDatabase; simpl.
  enough (Hloop : forall database st,
             only_polls st (GenerateDatabase_loop ProcessNode adjust range params
                              database st).2).
  { specialize (Hloop ∅ st). destruct (GenerateDatabase_loop _ _ _ _ _ _). exact Hloop. }
  clear st. induction IH as [|param params Hparam _ IHparams]; intros database st.
  - apply only_polls_refl.
  - simpl in Hparams. apply andb_true_iff in Hparams as [Hp Hrest].
    rewrite loop_cons.
    pose proof (only_polls_IsCancelled st) as Hpoll.
    destruct (IsCancelled st) as [[|] st1]; [exact Hpoll|]. simpl in Hpoll.
    destruct (GenerateDatabase_body _ _ _ _ _ _) as [database' st2] eqn:Hbody.
    eapply only_polls_trans; [exact Hpoll|].
    eapply only_polls_trans; [|apply IHparams; exact Hrest].
    destruct param as [input|out]; [|injection Hbody as _ <-; apply only_polls_refl].
    apply andb_true_iff in Hp as [Hty Hconn].
    apply negb_true_iff, bool_decide_eq_false in Hty.
    rewrite body_input in Hbody. cbv zeta in Hbody.
    destruct (decide (data_type input = kFootage)) as [Heq|_]; [contradiction|].
    unfold ProcessInput_with in Hbody. simpl in Hparam.
    destruct (get_connected_node input) as [connected|].
    + specialize (Hparam (adjust (input_id input) range) st1 Hconn).
      destruct (ProcessNode connected _ st1) as [table st1'].
      injection Hbody as _ <-. exact Hparam.
    + injection Hbody as _ <-. apply only_polls_refl.
Qed.

Lemma keeps_decoders_refl {D} (m : gmap (option nat) D) : keeps_decoders m m.
Proof. intros key H. exact H. Qed.

Lemma keeps_decoders_trans {D} (m1 m2 m3 : gmap (option nat) D) :
  keeps_decoders m1 m2 -> keeps_decoders m2 m3 -> keeps_decoders m1 m3.
Proof. intros H1 H2 key H. auto. Qed.

Lemma keeps_decoders_insert {D} (m : gmap (option nat) D) key d :
  keeps_decoders m (<[key := d]> m).
Proof.
  intros key' H. destruct (decide (key = key')) as [->|Hne].
  - rewrite lookup_insert_eq. eauto.
  - rewrite lookup_insert_ne; assumption.
Qed.

Lemma Resolve_keeps_decoders s st :
  keeps_decoders (decoder_cache_ st)
    (decoder_cache_ (ResolveDecoderFromInput (Some s) st).2).
Proof.
  destruct (decoder_cache_ st !! Some (stream_addr s)) as [d|] eqn:Hget.
  - rewrite (Resolve_hit s d st Hget). apply keeps_decoders_refl.
  - destruct (Open (set_stream (CreateFromID (footage_decoder (footage s))) (Some s)))
      as [[|] d'] eqn:Hopen.
    + rewrite (Resolve_miss_opened s d' st Hget Hopen). apply keeps_decoders_insert.
    + rewrite (Resolve_miss_failed s d' st Hget Hopen). apply keeps_decoders_refl.
Qed.

Lemma RetrieveFootage_keeps_decoders input input_time table st :
  keeps_decoders (decoder_cache_ st)
    (decoder_cache_ (RetrieveFootage input input_time table st).2).
Proof.
  destruct (ResolveStreamFromInput input) as [s|] eqn:Hs.
  - pose proof (Resolve_keeps_decoders s st) as Hres.
    destruct (ResolveDecoderFromInput (Some s) st) as [[d|] st1] eqn:Hd.
    + destruct (decide (GetRetrieveState d (range_out input_time) = kReady)) as [Hr|Hr].
      * rewrite (RetrieveFootage_ready _ _ _ _ _ _ _ Hs Hd Hr).
        eapply keeps_decoders_trans; [exact Hres|]. apply keeps_decoders_insert.
      * rewrite (RetrieveFootage_unavailable _ _ _ _ _ _ _ Hs Hd Hr). exact Hres.
    + rewrite (RetrieveFootage_no_decoder _ _ _ _ _ _ Hs Hd). exact Hres.
  - rewrite (RetrieveFootage_no_stream _ _ _ _ Hs). apply keeps_decoders_refl.
Qed.

(** X9.  An evaluation never takes a Decoder out of the cache: a Stream that
    had a cached Decoder before [ProcessNode] has one after it, provided the
    backend's [RenderBlock] removes none either. *)
Theorem evaluation_never_evicts :
  (forall node range st,
      keeps_decoders (decoder_cache_ st) (decoder_cache_ (RenderBlock node range st).2)) ->
  forall node range st,
    keeps_decoders (decoder_cache_ st) (decoder_cache_ (ProcessNode node range st).2).
Proof.
  intros Hblock node.
  induction node as [nid track params value adjust IH] using Node_graph_ind.
  intros range st. rewrite ProcessNode_unfold. simpl.
  destruct track; [apply Hblock|].
  unfold GenerateDatabase; simpl.
  enough (Hloop : forall database st,
             keeps_decoders (decoder_cache_ st)
               (decoder_cache_ (GenerateDatabase_loop ProcessNode adjust range params
                                  database st).2)).
  { specialize (Hloop ∅ st). destruct (GenerateDatabase_loop _ _ _ _ _ _). exact Hloop. }
  clear st. induction IH as [|param params Hparam _ IHparams]; intros database st.
  - apply keeps_decoders_refl.
  - rewrite loop_cons, IsCancelled_eq.
    destruct (cancel_signal (polls st)); [apply keeps_decoders_refl|].
    destruct (GenerateDatabase_body _ _ _ _ _ _) as [database' st2] eqn:Hbody.
    eapply keeps_decoders_trans; [|apply IHparams].
    destruct param as [input|out]; [|injection Hbody as _ <-; apply keeps_decoders_refl].
    rewrite body_input in Hbody. cbv zeta in Hbody.
    destruct (ProcessInput_with ProcessNode input _ _) as [table st1] eqn:Hinput.
    assert (Hst1 : keeps_decoders (decoder_cache_ st) (decoder_cache_ st1)).
    { unfold ProcessInput_with in Hinput. simpl in Hparam.
      destruct (get_connected_node input) as [connected|].
      - specialize (Hparam (adjust (input_id input) range)
                      (mkRenderWorker (started_ st) (decoder_cache_ st) (path_ st)
                         (S (polls st)) (trace st ++ [EvIsCancelled false]))).
        rewrite Hinput in Hparam. exact Hparam.
      - injection Hinput as _ <-. apply keeps_decoders_refl. }
    destruct (decide _).
    + pose proof (RetrieveFootage_keeps_decoders input (adjust (input_id input) range)
                    table st1) as Hf.
      destruct (RetrieveFootage _ _ _ _). injection Hbody as _ <-.
      eapply keeps_decoders_trans; eassumption.
    + injection Hbody as _ <-. exact Hst1.
Qed.

Lemma RetrieveFootage_keeps_polls input input_time table st :
  polls (RetrieveFootage input input_time table st).2 = polls st.
Proof.
  destruct (ResolveStreamFromInput input) as [s|] eqn:Hs.
  - destruct (Resolve_frame s st) as (mid & _ & _ & _ & Hpolls).
    destruct (ResolveDecoderFromInput (Some s) st) as [[d|] st1] eqn:Hd.
    + destruct (decide (GetRetrieveState d (range_out input_time) = kReady)) as [Hr|Hr].
      * rewrite (RetrieveFootage_ready _ _ _ _ _ _ _ Hs Hd Hr). exact Hpolls.
      * rewrite (RetrieveFootage_unavailable _ _ _ _ _ _ _ Hs Hd Hr). exact Hpolls.
    + rewrite (RetrieveFootage_no_decoder _ _ _ _ _ _ Hs Hd). exact Hpolls.
  - rewrite (RetrieveFootage_no_stream _ _ _ _ Hs). reflexivity.
Qed.

(** X10.  The flag is read once for each parameter, Outputs as well as
    Inputs: the Database generation of a node whose Inputs are unconnected,
    with the flag down throughout, polls as many times as the node has
    parameters. *)
Theorem one_poll_per_parameter node range st :
  (forall k, cancel_signal k = false) ->
  all_unconnected (parameters node) = true ->
  polls (GenerateDatabase node range st).2
  = (polls st + length (parameters node))%nat.
Proof.
  intros Hnever. unfold GenerateDatabase.
  generalize (∅ : NodeValueDatabase) as database. revert st.
  induction (parameters node) as [|param params IH]; intros st database Hun.
  - simpl. lia.
  - simpl in Hun. apply andb_true_iff in Hun as [Hp Hrest].
    rewrite loop_cons, IsCancelled_eq, Hnever.
    destruct (GenerateDatabase_body _ _ _ _ _ _) as [database' st2] eqn:Hbody.
    rewrite (IH st2 database' Hrest).
    enough (polls st2 = S (polls st)) by (simpl; lia).
    destruct param as [input|out]; [|injection Hbody as _ <-; reflexivity].
    rewrite body_input in Hbody. cbv zeta in Hbody.
    unfold ProcessInput_with, IsConnected in *.
    destruct (get_connected_node input); [discriminate|]. unfold ret in Hbody.
    destruct (decide _).
    + pose proof (RetrieveFootage_keeps_polls input
                    (InputTimeAdjustment node (input_id input) range)
                    (Table_Push (data_type input)
                       (get_value_at_time input
                          (range_in (InputTimeAdjustment node (input_id input) range))) [])
                    (mkRenderWorker (started_ st) (decoder_cache_ st) (path_ st)
                       (S (polls st)) (trace st ++ [EvIsCancelled false]))) as Hf.
      destruct (RetrieveFootage _ _ _ _). injection Hbody as _ <-. exact Hf.
    + injection Hbody as _ <-. reflexivity.
Qed.

(** X11.  [Render] ends with one [CompletedCache] carrying the Descriptor it
    was given, the Table [ProcessNode] made of it and the job time; and the
    Descriptor is the worker's current path afterwards, provided the
    backend's [RenderBlock] leaves the path alone. *)
Theorem Render_completes_with_its_path path job_time st :
  (forall node range st, path_ (RenderBlock node range st).2 = path_ st) ->
  let st0 := mkRenderWorker (started_ st) (decoder_cache_ st) (Some path)
               (polls st) (trace st) in
  let evaluated := ProcessNode (dep_node path) (dep_range path) st0 in
  let st' := (Render path job_time st).2 in
  trace st' = trace evaluated.2 ++ [EvCompletedCache path evaluated.1 job_time] /\
  (CurrentPath st').1 = Some path.
Proof.
  intros Hblock st0 evaluated st'. subst st' evaluated.
  rewrite Render_unfold. cbv zeta.
  pose proof (ProcessNode_keeps_path Hblock (dep_node path) (dep_range path) st0) as Hp.
  subst st0.
  destruct (ProcessNode _ _ _) as [data st1]. simpl in *.
  split; [reflexivity|]. exact Hp.
Qed.

End Database_more.

Lemma database_has_every_input_witness :
  dom (GenerateDatabase (E := Test.env Test.never) (Sample.sum 1) Test.range_10_20
         Test.fresh).1
  = list_to_set (param_input_ids (parameters (Sample.sum 1))).
Proof.
  exact (database_has_every_input (E := Test.env Test.never) (Sample.sum 1)
           Test.range_10_20 Test.fresh (fun k => eq_refl)).
Defined.

Lemma footage_free_evaluation_only_polls_witness :
  only_polls Test.fresh
    (ProcessNode (E := Test.env Test.never) (Sample.sum 1) Test.range_10_20 Test.fresh).2.
Proof.
  exact (footage_free_evaluation_only_polls (E := Test.env Test.never) (Sample.sum 1)
           Test.range_10_20 Test.fresh eq_refl).
Defined.

Lemma evaluation_never_evicts_witness :
  let st := with_cache (E := Test.env Test.never)
              (<[Some 102%nat := Test.mkTestDecoder "ffmpeg" (Some Test.movie) true]> ∅)
              Test.fresh in
  keeps_decoders (decoder_cache_ st)
    (decoder_cache_
       (ProcessNode (E := Test.env Test.never) (Test.viewer 1 Test.clip)
          Test.range_10_20 st).2).
Proof.
  exact (evaluation_never_evicts (E := Test.env Test.never)
           (fun node range st key H => H) (Test.viewer 1 Test.clip) Test.range_10_20
           (with_cache (E := Test.env Test.never)
              (<[Some 102%nat := Test.mkTestDecoder "ffmpeg" (Some Test.movie) true]> ∅)
              Test.fresh)).
Defined.

Lemma one_poll_per_parameter_witness :
  polls (GenerateDatabase (E := Test.env Test.never) (Test.media 1 Test.clip)
           Test.range_10_20 Test.fresh).2 = 2%nat.
Proof.
  exact (one_poll_per_parameter (E := Test.env Test.never) (Test.media 1 Test.clip)
           Test.range_10_20 Test.fresh (fun k => eq_refl) eq_refl).
Defined.

Lemma Render_completes_with_its_path_witness :
  let path := mkNodeDependency (Test.five 2) Test.range_10_20 in
  trace (Render (E := Test.env Test.never) path 7 Test.fresh).2
    = [EvIsCancelled false; EvCompletedCache path [(kInt, QInt 1)] 7] /\
  (CurrentPath (E := Test.env Test.never)
     (Render (E := Test.env Test.never) path 7 Test.fresh).2).1 = Some path.
Proof.
  exact (Render_completes_with_its_path (E := Test.env Test.never)
           (mkNodeDependency (Test.five 2) Test.range_10_20) 7 Test.fresh
           (fun node range st => eq_refl)).
Defined.

(** ** Two workers: nobody waits for ever, and both get the same decoder *)

Section Concurrent_more_properties.

Context {E : WorkerEnv}.

Lemma resolve_step_mutex tid stream pc sh pc' sh' :
  resolve_step tid stream pc sh = Some (pc', sh') ->
  sh_mutex sh' = sh_mutex sh \/ sh_mutex sh' = Some tid \/ sh_mutex sh' = None.
Proof.
  destruct pc; simpl; intros Hs.
  - destruct (sh_mutex sh); [discriminate|]. injection Hs as <- <-. auto.
  - injection Hs as <- <-. auto.
  - destruct decoder, stream; injection Hs as <- <-; auto.
  - destruct (Open decoder) as [[|] d']; injection Hs as <- <-; auto.
  - injection Hs as <- <-. auto.
  - destruct stream; injection Hs as <- <-; auto.
  - injection Hs as <- <-. auto.
  - discriminate.
Qed.

Lemma mutex_owner_known_reachable s1 s2 cache c :
  reachable s1 s2 cache c -> mutex_owner_known c.
Proof.
  unfold reachable. revert c. apply rtc_ind_r.
  - left. reflexivity.
  - intros c c' _ Hstep IH. unfold mutex_owner_known in *.
    destruct Hstep as [c pc' sh' Hs|c pc' sh' Hs]; simpl;
      apply resolve_step_mutex in Hs as [Hm|[Hm|Hm]]; rewrite Hm; auto.
Qed.

Lemma holder_can_step tid stream pc sh :
  holds_lock pc = true -> exists pc' sh', resolve_step tid stream pc sh = Some (pc', sh').
Proof.
  destruct pc; simpl; intros H; try discriminate; eauto.
  - destruct decoder, stream; eauto.
  - destruct (Open decoder) as [[|] d']; eauto.
  - destruct stream; eauto.
Qed.

(** X12.  Two workers inside [ResolveDecoderFromInput] cannot block each
    other for good: in whatever state an interleaving has brought them, one
    of them can take its next step, unless both have returned, and then the
    mutex is free. *)
Theorem resolution_never_deadlocks s1 s2 cache c :
  reachable s1 s2 cache c ->
  (has_returned (worker1 c) = true /\ has_returned (worker2 c) = true /\
   sh_mutex (shared c) = None) \/
  exists c', sched_step s1 s2 c c'.
Proof.
  intros Hreach.
  pose proof (mutex_ok_reachable _ _ _ _ Hreach) as [H1 H2].
  pose proof (mutex_owner_known_reachable _ _ _ _ Hreach) as Hown.
  destruct (holds_lock (worker1 c)) eqn:Hw1.
  { right. destruct (holder_can_step 1 s1 (worker1 c) (shared c) Hw1) as (pc' & sh' & Hs).
    eexists. apply (step_worker1 s1 s2 c pc' sh' Hs). }
  destruct (holds_lock (worker2 c)) eqn:Hw2.
  { right. destruct (holder_can_step 2 s2 (worker2 c) (shared c) Hw2) as (pc' & sh' & Hs).
    eexists. apply (step_worker2 s1 s2 c pc' sh' Hs). }
  assert (Hfree : sh_mutex (shared c) = None).
  { destruct Hown as [Hn|[Hn|Hn]]; [exact Hn| |].
    - apply H1 in Hn. discriminate.
    - apply H2 in Hn. discriminate. }
  destruct (worker1 c) eqn:Hpc1; try discriminate.
  - right. eexists. apply (step_worker1 s1 s2 c AtGet). rewrite Hpc1. simpl.
    rewrite Hfree. reflexivity.
  - destruct (worker2 c) eqn:Hpc2; try discriminate.
    + right. eexists. apply (step_worker2 s1 s2 c AtGet). rewrite Hpc2. simpl.
      rewrite Hfree. reflexivity.
    + left. auto.
Qed.

Lemma resolve_step_one_decoder s d0 d1 tid pc sh pc' sh' :
  Open d0 = (true, d1) ->
  d0 = set_stream (CreateFromID (footage_decoder (footage s))) (Some s) ->
  resolve_step tid (Some s) pc sh = Some (pc', sh') ->
  local_decoder_ok d0 d1 pc ->
  (sh_cache sh !! Some (stream_addr s) = None \/
   sh_cache sh !! Some (stream_addr s) = Some d1) ->
  (settled pc = true -> sh_cache sh !! Some (stream_addr s) = Some d1) ->
  local_decoder_ok d0 d1 pc' /\
  (sh_cache sh' !! Some (stream_addr s) = None \/
   sh_cache sh' !! Some (stream_addr s) = Some d1) /\
  (settled pc' = true -> sh_cache sh' !! Some (stream_addr s) = Some d1) /\
  (sh_cache sh !! Some (stream_addr s) = Some d1 ->
   sh_cache sh' !! Some (stream_addr s) = Some d1).
Proof.
  intros Hopen Hd0 Hstep Hlocal Hcache Hsettled.
  destruct sh as [cache mutex log]; simpl in *.
  destruct pc; simpl in Hstep, Hlocal, Hsettled.
  - destruct mutex; [discriminate|]. injection Hstep as <- <-. simpl.
    repeat split; auto; discriminate.
  - injection Hstep as <- <-. simpl.
    destruct (cache !! Some (stream_addr s)) as [d|] eqn:Hget; simpl.
    + destruct Hcache as [?|Hc]; [discriminate|]. injection Hc as ->.
      repeat split; auto.
    + repeat split; auto; discriminate.
  - destruct decoder as [d|].
    + injection Hstep as <- <-. simpl. repeat split; auto.
    + injection Hstep as <- <-. simpl. repeat split; auto; discriminate.
  - subst decoder. rewrite Hopen in Hstep. injection Hstep as <- <-. simpl.
    repeat split; auto; discriminate.
  - subst decoder. injection Hstep as <- <-. simpl. rewrite lookup_insert_eq.
    repeat split; auto.
  - contradiction.
  - injection Hstep as <- <-. simpl.
    destruct decoder; [|contradiction]. repeat split; auto.
  - discriminate.
Qed.

Lemma one_decoder_reachable s d0 d1 cache c :
  Open d0 = (true, d1) ->
  d0 = set_stream (CreateFromID (footage_decoder (footage s))) (Some s) ->
  cache !! Some (stream_addr s) = None ->
  reachable (Some s) (Some s) cache c -> one_decoder_invariant s d0 d1 c.
Proof.
  intros Hopen Hd0 Hmiss. unfold reachable. revert c. apply rtc_ind_r.
  - repeat split; simpl; auto. intros [H|H]; discriminate.
  - intros c c' _ Hstep (Hl1 & Hl2 & Hcache & Hsettled).
    destruct Hstep as [c pc' sh' Hs|c pc' sh' Hs]; simpl.
    + destruct (resolve_step_one_decoder s d0 d1 1 _ _ _ _ Hopen Hd0 Hs Hl1 Hcache)
        as (Hl1' & Hcache' & Hset' & Hkeep); [auto|].
      repeat split; auto. intros [H|H]; auto.
    + destruct (resolve_step_one_decoder s d0 d1 2 _ _ _ _ Hopen Hd0 Hs Hl2 Hcache)
        as (Hl2' & Hcache' & Hset' & Hkeep); [auto|].
      repeat split; auto. intros [H|H]; auto.
Qed.

(** X13.  Two workers that resolve the same Stream, not yet in the cache and
    whose Decoder opens, both return the one Decoder that was opened, and it
    is the one the cache holds, in whatever order their steps were taken. *)
Theorem both_workers_get_the_same_decoder s cache d1 c r1 r2 :
  Open (set_stream (CreateFromID (footage_decoder (footage s))) (Some s)) = (true, d1) ->
  cache !! Some (stream_addr s) = None ->
  reachable (Some s) (Some s) cache c ->
  worker1 c = Returned r1 -> worker2 c = Returned r2 ->
  r1 = Some d1 /\ r2 = Some d1 /\
  sh_cache (shared c) !! Some (stream_addr s) = Some d1.
Proof.
  intros Hopen Hmiss Hreach Hw1 Hw2.
  destruct (one_decoder_reachable s _ d1 cache c Hopen eq_refl Hmiss Hreach)
    as (Hl1 & Hl2 & _ & Hsettled).
  rewrite Hw1 in Hl1, Hsettled. rewrite Hw2 in Hl2. simpl in *.
  destruct r1 as [d|]; [|contradiction]. destruct r2 as [d'|]; [|contradiction].
  subst. auto.
Qed.

End Concurrent_more_properties.

Lemma resolution_never_deadlocks_witness :
  (has_returned (worker1 Test.one_locked) = true /\
   has_returned (worker2 Test.one_locked) = true /\
   sh_mutex (shared Test.one_locked) = None) \/
  exists c', sched_step (Some Test.clip) (Some Test.clip) Test.one_locked c'.
Proof.
  apply (resolution_never_deadlocks (E := Test.env Test.never)
           (Some Test.clip) (Some Test.clip) ∅ Test.one_locked).
  apply rtc_once.
  exact (step_worker1 (Some Test.clip) (Some Test.clip) (initial_config ∅) AtGet _ eq_refl).
Defined.

Lemma both_workers_get_the_same_decoder_witness :
  let d := Test.mkTestDecoder "oiio" (Some Test.clip) true in
  Some d = Some d /\ Some d = Some d /\
  sh_cache (shared Sample.both_returned) !! Some 100%nat = Some d.
Proof.
  apply (both_workers_get_the_same_decoder (E := Test.env Test.never) Test.clip ∅
           (Test.mkTestDecoder "oiio" (Some Test.clip) true) Sample.both_returned
           (Some (Test.mkTestDecoder "oiio" (Some Test.clip) true))
           (Some (Test.mkTestDecoder "oiio" (Some Test.clip) true)));
    try reflexivity.
  unfold reachable.
  do 6 (eapply rtc_l; [eapply step_worker1; reflexivity|]).
  do 4 (eapply rtc_l; [eapply step_worker2; reflexivity|]).
  apply rtc_refl.
Defined.


(** ** The still-image decoder, further *)

Section OIIO_more.

Import OIIO.
Context {L : Library}.

Lemma select_pix_fmt_handled fmt rgba :
  (exists pf, select_pix_fmt fmt rgba = Some pf) <-> In fmt handled_types.
Proof.
  unfold handled_types. split.
  - intros [pf H]. destruct fmt; simpl in *; try discriminate; auto.
  - intros H. destruct fmt; simpl in H; try (exfalso; intuition discriminate);
      unfold select_pix_fmt; simpl; eauto.
Qed.

(** X14.  [Open] on a decoder with a stream returns true exactly when the
    file opens as an image and its sample type is one of UINT8, UINT16, HALF
    and FLOAT. *)
Theorem Open_succeeds_iff d s :
  stream_ d = Some s ->
  (exists d', Open d = Some (true, d')) <->
  (exists img, ImageInput_open (filename (footage s)) = Some img /\
               In (format (input_spec img)) handled_types).
Proof.
  intros Hs. unfold Open. rewrite Hs.
  destruct (ImageInput_open (filename (footage s))) as [img|].
  - destruct (select_pix_fmt (format (input_spec img))
                (nchannels (input_spec img) =? kRGBAChannels)) as [pf|] eqn:Hsel.
    + split; [|eauto]. intros _. exists img. split; [reflexivity|].
      apply (select_pix_fmt_handled _ (nchannels (input_spec img) =? kRGBAChannels)). eauto.
    + split; [intros [d' H]; discriminate|].
      intros (img' & [= <-] & Hin).
      apply (select_pix_fmt_handled _ (nchannels (input_spec img) =? kRGBAChannels)) in Hin
        as [pf Hpf]. congruence.
  - split; [intros [d' H]; discriminate|]. intros (img & H & _). discriminate.
Qed.

(** X15.  When the file opens but its sample type is not handled, [Open]
    returns false having already stored the open image and overwritten the
    width, the height and the RGBA flag; [open_], the buffer and the pixel
    format are as before the call. *)
Theorem Open_unhandled_type_keeps_image d s img :
  stream_ d = Some s ->
  ImageInput_open (filename (footage s)) = Some img ->
  ~ In (format (input_spec img)) handled_types ->
  exists d',
    Open d = Some (false, d') /\
    image_ d' = Some img /\
    width_ d' = spec_width (input_spec img) /\
    height_ d' = spec_height (input_spec img) /\
    is_rgba_ d' = (nchannels (input_spec img) =? kRGBAChannels) /\
    open_ d' = open_ d /\ buffer_ d' = buffer_ d /\ pix_fmt_ d' = pix_fmt_ d.
Proof.
  intros Hs Himg Hnot. unfold Open. rewrite Hs, Himg.
  destruct (select_pix_fmt (format (input_spec img))
              (nchannels (input_spec img) =? kRGBAChannels)) as [pf|] eqn:Hsel.
  - exfalso. apply Hnot.
    apply (select_pix_fmt_handled _ (nchannels (input_spec img) =? kRGBAChannels)). eauto.
  - eexists. split; [reflexivity|]. simpl. repeat split; reflexivity.
Qed.

(** X16.  [Close] releases the image and the buffer but leaves [open_] set:
    a decoder that was opened and then closed still answers [kReady], while
    [RetrieveVideo] on it dereferences the null buffer. *)
Theorem closed_decoder_still_ready d0 d time divider :
  Open d0 = Some (true, d) ->
  GetRetrieveState (Close d) time = kReady /\
  image_ (Close d) = None /\ buffer_ (Close d) = None /\
  RetrieveVideo (Close d) time divider = None.
Proof.
  intros Hopen. apply Open_true in Hopen as [Ho _].
  unfold GetRetrieveState, RetrieveVideo, Close; simpl. rewrite Ho. simpl.
  repeat split; reflexivity.
Qed.

(** X17.  Opening is repeatable: on a decoder that has been opened, whether
    or not it was closed since, [Open] succeeds again and gives back exactly
    the decoder the first [Open] gave, as long as the file reads the same. *)
Theorem reopen_restores d0 d :
  Open d0 = Some (true, d) ->
  Open d = Some (true, d) /\ Open (Close d) = Some (true, d).
Proof.
  unfold Open. destruct (stream_ d0) as [s|] eqn:Hs; [|discriminate].
  destruct (ImageInput_open (filename (footage s))) as [img|] eqn:Himg; [|intros [=]].
  destruct (select_pix_fmt _ _) as [pf|] eqn:Hsel; intros [= <-]; simpl.
  rewrite Himg, Hsel. split; reflexivity.
Qed.

(** X18.  The frame of an opened decoder over a non-negative native size is
    never larger than the native size, and a divider beyond a dimension
    gives that dimension 0 rather than an error. *)
Theorem frame_within_native_size d0 d time divider f :
  Open d0 = Some (true, d) ->
  0 <= width_ d <= int_max -> 0 <= height_ d <= int_max ->
  1 <= divider ->
  RetrieveVideo d time divider = Some (Some f) ->
  0 <= frame_width f <= width_ d /\
  0 <= frame_height f <= height_ d /\
  (width_ d < divider -> frame_width f = 0) /\
  (height_ d < divider -> frame_height f = 0).
Proof.
  intros Hopen Hw Hh Hdiv Hf.
  apply Open_true in Hopen as (Ho & s & img & buf & _ & _ & Hbuf & _).
  destruct (RetrieveVideo_open d buf time divider Ho Hbuf) as (f' & Hf' & Hfw & Hfh & _).
  assert (f' = f) by congruence. subst f'.
  assert (Hiw : is_int (width_ d)) by (unfold is_int, int_min, int_max in *; lia).
  assert (Hih : is_int (height_ d)) by (unfold is_int, int_min, int_max in *; lia).
  rewrite Hfw, Hfh, !int_div_quot by (assumption || lia).
  pose proof (quot_between (width_ d) divider ltac:(lia)).
  pose proof (quot_between (height_ d) divider ltac:(lia)).
  repeat split; try lia; intros Hlt; apply Z.quot_small; lia.
Qed.

(** X19.  After a successful [Open] the pixel format has an alpha channel
    exactly when the image has [kRGBAChannels] channels, whatever its sample
    type; [type_] is the type of that format and the buffer has the image's
    size and channels. *)
Theorem Open_alpha_iff_rgba_channels d0 d s img :
  stream_ d0 = Some s ->
  ImageInput_open (filename (footage s)) = Some img ->
  Open d0 = Some (true, d) ->
  PixelFormat_has_alpha (pix_fmt_ d) = (nchannels (input_spec img) =? kRGBAChannels) /\
  is_rgba_ d = PixelFormat_has_alpha (pix_fmt_ d) /\
  type_ d = GetOIIOTypeDesc (pix_fmt_ d) /\
  (buf_spec <$> buffer_ d) =
    Some (mkImageSpec (spec_width (input_spec img)) (spec_height (input_spec img))
            (nchannels (input_spec img)) (type_ d)).
Proof.
  intros Hs Himg. unfold Open. rewrite Hs, Himg.
  destruct (select_pix_fmt _ _) as [pf|] eqn:Hsel; intros [= <-]; simpl.
  assert (Ha : PixelFormat_has_alpha pf = (nchannels (input_spec img) =? kRGBAChannels)).
  { unfold select_pix_fmt in Hsel.
    destruct (nchannels (input_spec img) =? kRGBAChannels);
      destruct (format (input_spec img)); simpl in Hsel;
      try discriminate; injection Hsel as <-; reflexivity. }
  rewrite Ha. repeat split; reflexivity.
Qed.

(** X20.  A decoder none of whose [Open] calls has succeeded gives the null
    frame for every time and divider. *)
Theorem unopened_decoder_has_no_frame uninit calls d time divider :
  after_calls calls (OIIODecoder_new uninit) false = Some (d, false) ->
  RetrieveVideo d time divider = Some None.
Proof.
  intros Hrun. apply after_calls_open in Hrun; [|reflexivity].
  unfold RetrieveVideo. rewrite Hrun. reflexivity.
Qed.

End OIIO_more.

Lemma Open_succeeds_iff_witness :
  let d := OIIO.set_stream (OIIO.OIIODecoder_new Test.stale_memory) (Some Test.clip) in
  (exists d', OIIO.Open (L := Test.library) d = Some (true, d')) <->
  (exists img, OIIO.ImageInput_open (Library := Test.library) "clip.png" = Some img /\
               In (OIIO.format (OIIO.input_spec img)) handled_types).
Proof.
  exact (Open_succeeds_iff (L := Test.library)
           (OIIO.set_stream (OIIO.OIIODecoder_new Test.stale_memory) (Some Test.clip))
           Test.clip eq_refl).
Defined.

Lemma Open_unhandled_type_keeps_image_witness :
  let d := OIIO.set_stream (OIIO.OIIODecoder_new Test.stale_memory) (Some Sample.deep) in
  let img := OIIO.mkImageInput (OIIO.mkImageSpec 640 480 3 OIIO.DOUBLE) "deep.exr" in
  exists d',
    OIIO.Open (L := Test.library) d = Some (false, d') /\
    OIIO.image_ d' = Some img /\
    OIIO.width_ d' = 640 /\ OIIO.height_ d' = 480 /\
    OIIO.is_rgba_ d' = false /\
    OIIO.open_ d' = false /\ OIIO.buffer_ d' = None /\
    OIIO.pix_fmt_ d' = OIIO.PIX_FMT_INVALID.
Proof.
  apply (Open_unhandled_type_keeps_image (L := Test.library)
           (OIIO.set_stream (OIIO.OIIODecoder_new Test.stale_memory) (Some Sample.deep))
           Sample.deep
           (OIIO.mkImageInput (OIIO.mkImageSpec 640 480 3 OIIO.DOUBLE) "deep.exr")
           eq_refl eq_refl).
  simpl. intros [H|[H|[H|[H|[]]]]]; discriminate.
Defined.

Lemma closed_decoder_still_ready_witness :
  OIIO.GetRetrieveState (OIIO.Close Test.clip_decoder) (rational_of_int 1) = kReady /\
  OIIO.image_ (OIIO.Close Test.clip_decoder) = None /\
  OIIO.buffer_ (OIIO.Close Test.clip_decoder) = None /\
  OIIO.RetrieveVideo (OIIO.Close Test.clip_decoder) (rational_of_int 1) 2 = None.
Proof.
  exact (closed_decoder_still_ready (L := Test.library)
           (OIIO.set_stream (OIIO.OIIODecoder_new Test.stale_memory) (Some Test.clip))
           Test.clip_decoder (rational_of_int 1) 2 eq_refl).
Defined.

Lemma reopen_restores_witness :
  OIIO.Open Test.clip_decoder = Some (true, Test.clip_decoder) /\
  OIIO.Open (OIIO.Close Test.clip_decoder) = Some (true, Test.clip_decoder).
Proof.
  exact (reopen_restores (L := Test.library)
           (OIIO.set_stream (OIIO.OIIODecoder_new Test.stale_memory) (Some Test.clip))
           Test.clip_decoder eq_refl).
Defined.

Lemma frame_within_native_size_witness :
  let f := OIIO.mkFrame (Pixels := list Z) 0 0 OIIO.PIX_FMT_RGBA8 (Some []) in
  0 <= OIIO.frame_width f <= 1920 /\
  0 <= OIIO.frame_height f <= 1080 /\
  (1920 < 4000 -> OIIO.frame_width f = 0) /\
  (1080 < 4000 -> OIIO.frame_height f = 0).
Proof.
  apply (frame_within_native_size (L := Test.library)
           (OIIO.set_stream (OIIO.OIIODecoder_new Test.stale_memory) (Some Test.clip))
           Test.clip_decoder (rational_of_int 1) 4000
           (OIIO.mkFrame (Pixels := list Z) 0 0 OIIO.PIX_FMT_RGBA8 (Some [])));
    try reflexivity; unfold int_max; simpl; lia.
Defined.

Lemma Open_alpha_iff_rgba_channels_witness :
  PixelFormat_has_alpha (OIIO.pix_fmt_ Test.clip_decoder) = true /\
  OIIO.is_rgba_ Test.clip_decoder = PixelFormat_has_alpha (OIIO.pix_fmt_ Test.clip_decoder) /\
  OIIO.type_ Test.clip_decoder = OIIO.UINT8 /\
  (OIIO.buf_spec <$> OIIO.buffer_ Test.clip_decoder) =
    Some (OIIO.mkImageSpec 1920 1080 4 OIIO.UINT8).
Proof.
  exact (Open_alpha_iff_rgba_channels (L := Test.library)
           (OIIO.set_stream (OIIO.OIIODecoder_new Test.stale_memory) (Some Test.clip))
           Test.clip_decoder Test.clip
           (OIIO.mkImageInput (OIIO.mkImageSpec 1920 1080 4 OIIO.UINT8) "clip.png")
           eq_refl eq_refl eq_refl).
Defined.

Lemma unopened_decoder_has_no_frame_witness :
  OIIO.RetrieveVideo (L := Test.library)
    (OIIO.mkOIIODecoder (Some Test.lost) false None None 0 0 false
       OIIO.PIX_FMT_INVALID OIIO.UNKNOWN)
    (rational_of_int 1) 2 = Some None.
Proof.
  exact (unopened_decoder_has_no_frame (L := Test.library) Test.stale_memory
           [OIIO.CallSetStream (Some Test.lost); OIIO.CallOpen]
           (OIIO.mkOIIODecoder (Some Test.lost) false None None 0 0 false
              OIIO.PIX_FMT_INVALID OIIO.UNKNOWN)
           (rational_of_int 1) 2 eq_refl).
Defined.


(** ** Cutting strings *)

Section Qt_properties.

Import Qt.

Lemma split_not_nil sep s : split sep s <> [].
Proof.
  destruct s as [|c rest]; simpl; [discriminate|].
  destruct (Ascii.eqb c sep); [discriminate|].
  destruct (split sep rest); discriminate.
Qed.

Lemma split_without_separator sep s :
  contains_char sep s = false -> split sep s = [s].
Proof.
  induction s as [|c rest IH]; simpl; [reflexivity|].
  intros H. apply orb_false_iff in H as [Hc Hrest].
  rewrite Hc, (IH Hrest). reflexivity.
Qed.

Lemma split_pieces_without sep c s :
  (Ascii.eqb c sep = true \/ contains_char c s = false) ->
  Forall (fun piece => contains_char c piece = false) (split sep s).
Proof.
  induction s as [|c' rest IH]; simpl; intros H.
  - repeat constructor.
  - assert (Hrest : Ascii.eqb c sep = true \/ contains_char c rest = false).
    { destruct H as [H|H]; [left; exact H|].
      apply orb_false_iff in H as [_ H]. right; exact H. }
    specialize (IH Hrest).
    destruct (Ascii.eqb c' sep) eqn:Hsep.
    + constructor; [reflexivity|exact IH].
    + destruct (split sep rest) as [|piece pieces] eqn:Hsplit.
      * exfalso. exact (split_not_nil sep rest Hsplit).
      * inversion IH as [|? ? Hpiece Hpieces]; subst.
        constructor; [|exact Hpieces]. simpl. rewrite Hpiece, orb_false_r.
        destruct H as [H|H].
        -- apply Ascii.eqb_eq in H. subst c. exact Hsep.
        -- apply orb_false_iff in H as [H _]. exact H.
Qed.

(** Joining the pieces of a split with the separator gives back the string
    that was split. *)
Lemma join_of_split sep s :
  String.concat (String sep EmptyString) (split sep s) = s.
Proof.
  induction s as [|c rest IH]; simpl; [reflexivity|].
  destruct (Ascii.eqb c sep) eqn:Hsep.
  - apply Ascii.eqb_eq in Hsep. subst c. simpl.
    destruct (split sep rest) as [|piece pieces] eqn:Hsplit.
    + exfalso. exact (split_not_nil sep rest Hsplit).
    + simpl in *. rewrite IH. reflexivity.
  - destruct (split sep rest) as [|piece pieces] eqn:Hsplit.
    + exfalso. exact (split_not_nil sep rest Hsplit).
    + simpl in *. destruct pieces; simpl in *; rewrite <- IH; reflexivity.
Qed.

Lemma contains_char_app c s t :
  contains_char c (s ++ t) = contains_char c s || contains_char c t.
Proof.
  induction s as [|c' rest IH]; simpl; [reflexivity|].
  rewrite IH, orb_assoc. reflexivity.
Qed.

Lemma split_app_separator sep s t :
  contains_char sep s = false ->
  split sep (s ++ String sep t) = s :: split sep t.
Proof.
  induction s as [|c rest IH]; simpl; intros H.
  - rewrite Ascii.eqb_refl. reflexivity.
  - apply orb_false_iff in H as [Hc Hrest]. rewrite Hc, (IH Hrest). reflexivity.
Qed.

(** Splitting what was joined gives back the pieces, when there is at least
    one piece and none contains the separator. *)
Lemma split_of_join sep pieces :
  pieces <> [] ->
  Forall (fun piece => contains_char sep piece = false) pieces ->
  split sep (String.concat (String sep EmptyString) pieces) = pieces.
Proof.
  intros Hne Hall. induction Hall as [|piece rest Hpiece Hrest IH]; [contradiction|].
  destruct rest as [|next rest].
  - simpl. apply split_without_separator. exact Hpiece.
  - change (String.concat (String sep EmptyString) (piece :: next :: rest))
      with (piece ++ String sep (String.concat (String sep EmptyString) (next :: rest)))%string.
    rewrite (split_app_separator sep piece _ Hpiece), IH; [reflexivity|discriminate].
Qed.

End Qt_properties.

(** ** Probing *)

Section Probe_properties.

Import OIIOProbe.
Context {L : OIIO.Library} {A : Attributes}.

Lemma append_extensions_not_nil entries : forall supported result,
  append_extensions entries supported = Some result ->
  entries <> [] \/ supported <> [] -> result <> [].
Proof.
  induction entries as [|ext rest IH]; cbn [append_extensions];
    intros supported result Hrun Hne.
  - injection Hrun as <-. destruct Hne as [H|H]; [congruence|exact H].
  - destruct (nth_error (Qt.split ":" ext) 1) as [exts|]; [|discriminate].
    apply (IH _ _ Hrun). right.
    pose proof (split_not_nil ","%char exts) as Hs.
    destruct supported; simpl; [exact Hs|discriminate].
Qed.

Lemma filled_not_nil supported_formats_ supported :
  match supported_formats_ with
  | [] => append_extensions (Qt.split ";" extension_list) []
  | _ :: _ => Some supported_formats_
  end = Some supported ->
  supported <> [] /\ (supported_formats_ <> [] -> supported = supported_formats_).
Proof.
  destruct supported_formats_ as [|x l]; intros H.
  - split; [|contradiction].
    apply (append_extensions_not_nil _ _ _ H). left. apply split_not_nil.
  - injection H as <-. split; [discriminate|reflexivity].
Qed.

(** X21.  [Probe] answers true exactly when the complete suffix of the file
    name is in the supported list (letter case aside), the file opens as an
    image, and the image library is not reading it through FFmpeg. *)
Theorem Probe_accepts_iff f streams supported_formats_ r :
  Probe f streams supported_formats_ = Some r ->
  probe_ok r = true <->
  Qt.contains_ci (probe_supported r) (Qt.completeSuffix (filename f)) = true /\
  exists input,
    OIIO.ImageInput_open (filename f) = Some input /\
    format_name input <> "FFmpeg movie"%string.
Proof.
  unfold Probe.
  destruct (match supported_formats_ with [] => _ | _ :: _ => _ end) as [supported|];
    [|discriminate].
  destruct (Qt.contains_ci supported (Qt.completeSuffix (filename f))) eqn:Hin; simpl.
  - destruct (OIIO.ImageInput_open (filename f)) as [input|].
    + destruct (String.eqb (format_name input) "FFmpeg movie") eqn:Hff;
        intros [= <-]; simpl.
      * apply String.eqb_eq in Hff. split; [discriminate|].
        intros (_ & input' & [= <-] & Hne). contradiction.
      * apply String.eqb_neq in Hff. split; [|reflexivity]. eauto.
    + intros [= <-]; simpl. split; [discriminate|].
      intros (_ & input & H & _). discriminate.
  - intros [= <-]; simpl. split; [discriminate|]. intros [H _]. congruence.
Qed.

(** X22.  An accepted file gains the Footage exactly one stream, appended
    after those it had: index 0, premultiplied alpha, and the width and
    height of the image.  A rejected file leaves the streams as they were. *)
Theorem Probe_adds_one_image_stream f streams supported_formats_ r :
  Probe f streams supported_formats_ = Some r ->
  if probe_ok r then
    exists input,
      OIIO.ImageInput_open (filename f) = Some input /\
      probe_streams r =
        streams ++ [mkImageStream (OIIO.spec_width (OIIO.input_spec input))
                      (OIIO.spec_height (OIIO.input_spec input)) 0 true]
  else probe_streams r = streams.
Proof.
  unfold Probe.
  destruct (match supported_formats_ with [] => _ | _ :: _ => _ end) as [supported|];
    [|discriminate].
  destruct (Qt.contains_ci supported (Qt.completeSuffix (filename f))); simpl.
  - destruct (OIIO.ImageInput_open (filename f)) as [input|].
    + destruct (String.eqb (format_name input) "FFmpeg movie");
        intros [= <-]; simpl; eauto.
    + intros [= <-]; reflexivity.
  - intros [= <-]; reflexivity.
Qed.

(** X23.  A file whose complete suffix is not in the supported list is
    rejected without being handed to the image library; and no call opens
    anything but the Footage's own file. *)
Theorem Probe_opens_only_supported_suffix f streams supported_formats_ r :
  Probe f streams supported_formats_ = Some r ->
  (Qt.contains_ci (probe_supported r) (Qt.completeSuffix (filename f)) = false ->
   probe_ok r = false /\ probe_opened r = []) /\
  (probe_opened r = [] \/ probe_opened r = [filename f]).
Proof.
  unfold Probe.
  destruct (match supported_formats_ with [] => _ | _ :: _ => _ end) as [supported|];
    [|discriminate].
  destruct (Qt.contains_ci supported (Qt.completeSuffix (filename f))) eqn:Hin; simpl.
  - destruct (OIIO.ImageInput_open (filename f)) as [input|].
    + destruct (String.eqb (format_name input) "FFmpeg movie");
        intros [= <-]; simpl; (split; [congruence|auto]).
    + intros [= <-]; simpl. split; [congruence|auto].
  - intros [= <-]; simpl. auto.
Qed.

(** X24.  The supported list is made once: a call that returns leaves the
    list non-empty, and every later call, on whatever file, leaves it as it
    found it. *)
Theorem supported_formats_filled_once f streams supported_formats_ r :
  Probe f streams supported_formats_ = Some r ->
  probe_supported r <> [] /\
  forall f' streams' r',
    Probe f' streams' (probe_supported r) = Some r' ->
    probe_supported r' = probe_supported r.
Proof.
  assert (Hsup : forall f streams supported_formats_ r,
             Probe f streams supported_formats_ = Some r ->
             probe_supported r <> [] /\
             (supported_formats_ <> [] -> probe_supported r = supported_formats_)).
  { clear. intros f streams supported_formats_ r. unfold Probe.
    destruct (match supported_formats_ with [] => _ | _ :: _ => _ end)
      as [supported|] eqn:Hfill; [|discriminate].
    apply filled_not_nil in Hfill.
    destruct (Qt.contains_ci supported (Qt.completeSuffix (filename f))); simpl.
    - destruct (OIIO.ImageInput_open (filename f)) as [input|].
      + destruct (String.eqb (format_name input) "FFmpeg movie");
          intros [= <-]; exact Hfill.
      + intros [= <-]; exact Hfill.
    - intros [= <-]; exact Hfill. }
  intros Hrun. destruct (Hsup _ _ _ _ Hrun) as [Hne _]. split; [exact Hne|].
  intros f' streams' r' Hrun'. destruct (Hsup _ _ _ _ Hrun') as [_ Hkeep]. auto.
Qed.

(** X25.  With the list still empty, an "extension_list" attribute in which
    no ':' occurs, the empty attribute for one, takes [Probe] to an
    out-of-range [at(1)]: the call has no defined result. *)
Theorem Probe_attribute_without_colon f streams :
  Qt.contains_char ":" extension_list = false ->
  Probe f streams [] = None.
Proof.
  intros Hno. unfold Probe.
  pose proof (split_pieces_without ";"%char ":"%char extension_list (or_intror Hno)) as Hall.
  destruct (Qt.split ";" extension_list) as [|ext rest] eqn:Hsplit.
  - exfalso. exact (split_not_nil _ _ Hsplit).
  - inversion Hall as [|? ? Hext _]; subst. simpl.
    rewrite (split_without_separator _ _ Hext). reflexivity.
Qed.

Lemma contains_char_concat c sep pieces :
  Qt.contains_char c sep = false ->
  Forall (fun piece => Qt.contains_char c piece = false) pieces ->
  Qt.contains_char c (String.concat sep pieces) = false.
Proof.
  intros Hsep Hall. induction Hall as [|piece rest Hpiece Hrest IH]; [reflexivity|].
  destruct rest as [|next rest]; [exact Hpiece|].
  change (String.concat sep (piece :: next :: rest))
    with (piece ++ sep ++ String.concat sep (next :: rest))%string.
  rewrite !contains_char_app, Hpiece, Hsep, IH. reflexivity.
Qed.

Lemma plain_parts s :
  plain s = true ->
  Qt.contains_char ";" s = false /\ Qt.contains_char ":" s = false /\
  Qt.contains_char "," s = false.
Proof.
  unfold plain. intros H.
  apply andb_true_iff in H as [H H3]. apply andb_true_iff in H as [H1 H2].
  apply negb_true_iff in H1, H2, H3. auto.
Qed.

Lemma plain_all c exts :
  (forall s, plain s = true -> Qt.contains_char c s = false) ->
  forallb plain exts = true ->
  Forall (fun piece => Qt.contains_char c piece = false) exts.
Proof.
  intros Hc H. apply Forall_forall. intros x Hx. apply Hc.
  rewrite forallb_forall in H. apply H. apply list_elem_of_In. exact Hx.
Qed.

Lemma append_written_entries formats : forall supported,
  well_formed formats = true ->
  append_extensions
    (map (fun entry => (fst entry ++ ":" ++ String.concat "," (snd entry))%string) formats)
    supported
  = Some (supported ++ List.concat (map snd formats)).
Proof.
  induction formats as [|[fmt exts] rest IH]; intros supported Hwf.
  - simpl. rewrite app_nil_r. reflexivity.
  - simpl in Hwf. apply andb_true_iff in Hwf as [Hentry Hrest].
    apply andb_true_iff in Hentry as [Hentry Hlen].
    apply andb_true_iff in Hentry as [Hfmt Hexts].
    apply negb_true_iff, Nat.eqb_neq in Hlen.
    destruct (plain_parts fmt Hfmt) as (_ & Hfmt_colon & _).
    assert (Hno_colon : Qt.contains_char ":" (String.concat "," exts) = false).
    { apply contains_char_concat; [reflexivity|].
      apply plain_all; [|exact Hexts]. intros s Hs. apply (plain_parts s Hs). }
    cbn [map append_extensions fst snd].
    change (fmt ++ ":" ++ String.concat "," exts)%string
      with (fmt ++ String ":" (String.concat "," exts))%string.
    rewrite (split_app_separator ":"%char fmt _ Hfmt_colon).
    rewrite (split_without_separator _ _ Hno_colon). cbn [nth_error].
    rewrite (split_of_join ","%char exts).
    + rewrite (IH _ Hrest). cbn [List.concat]. rewrite <- app_assoc. reflexivity.
    + intros ->. apply Hlen. reflexivity.
    + apply plain_all; [|exact Hexts]. intros s Hs. apply (plain_parts s Hs).
Qed.

(** X26.  On its first call [Probe] makes the supported list of all the
    extensions of the attribute, format after format in the order written,
    when the attribute lists at least one format, each with at least one
    extension, and the names hold no separator. *)
Theorem Probe_reads_every_extension f streams formats :
  extension_list = write_extension_list formats ->
  formats <> [] ->
  well_formed formats = true ->
  exists r,
    Probe f streams [] = Some r /\
    probe_supported r = List.concat (map snd formats).
Proof.
  intros Hattr Hne Hwf.
  assert (Hfill : append_extensions (Qt.split ";" extension_list) []
                  = Some (List.concat (map snd formats))).
  { rewrite Hattr. unfold write_extension_list.
    rewrite (split_of_join ";"%char).
    - apply (append_written_entries formats [] Hwf).
    - destruct formats; [contradiction|discriminate].
    - apply Forall_forall. intros x Hx. apply list_elem_of_In, in_map_iff in Hx
        as ([fmt exts] & <- & Hin).
      unfold well_formed in Hwf. rewrite forallb_forall in Hwf.
      specialize (Hwf _ Hin). simpl in Hwf.
      apply andb_true_iff in Hwf as [Hentry _].
      apply andb_true_iff in Hentry as [Hfmt Hexts]. simpl.
      rewrite !contains_char_app.
      destruct (plain_parts fmt Hfmt) as (-> & _ & _). simpl.
      apply contains_char_concat; [reflexivity|].
      apply plain_all; [|exact Hexts]. intros s Hs. apply (plain_parts s Hs). }
  unfold Probe. rewrite Hfill.
  destruct (Qt.contains_ci _ _); simpl.
  - destruct (OIIO.ImageInput_open (filename f)) as [input|].
    + destruct (String.eqb (format_name input) "FFmpeg movie"); eauto.
    + eauto.
  - eauto.
Qed.

Lemma to_lower_dot c : Ascii.eqb (Qt.to_lower c) "." = Ascii.eqb c ".".
Proof. destruct c as [[] [] [] [] [] [] [] []]; reflexivity. Qed.

Lemma lower_keeps_dots s : Qt.contains_char "." (Qt.lower s) = Qt.contains_char "." s.
Proof.
  induction s as [|c rest IH]; simpl; [reflexivity|].
  rewrite to_lower_dot, IH. reflexivity.
Qed.

(** X27.  The suffix compared is everything after the first '.' of the file
    name: when no supported extension contains a '.', a file whose name has
    a second '.' is rejected, whatever follows its last '.', and it is not
    opened. *)
Theorem Probe_rejects_second_dot f streams supported_formats_ :
  supported_formats_ <> [] ->
  Forall (fun ext => Qt.contains_char "." ext = false) supported_formats_ ->
  Qt.contains_char "." (Qt.completeSuffix (filename f)) = true ->
  Probe f streams supported_formats_
  = Some (mkProbeResult false streams supported_formats_ []).
Proof.
  intros Hne Hplain Hdot. unfold Probe.
  destruct supported_formats_ as [|x l] eqn:Hsup; [contradiction|]. rewrite <- Hsup in *.
  assert (Hin : Qt.contains_ci supported_formats_ (Qt.completeSuffix (filename f)) = false).
  { unfold Qt.contains_ci. apply not_true_is_false. intros Hex.
    apply existsb_exists in Hex as (ext & Hext & Heq).
    apply String.eqb_eq in Heq.
    rewrite Forall_forall in Hplain. specialize (Hplain ext).
    rewrite <- lower_keeps_dots, Heq, lower_keeps_dots, Hdot in Hplain.
    assert (true = false) by (apply Hplain; apply list_elem_of_In; exact Hext).
    discriminate. }
  rewrite Hin. reflexivity.
Qed.

End Probe_properties.

Lemma Probe_accepts_iff_witness :
  OIIOProbe.probe_ok Sample.accepted = true <->
  Qt.contains_ci (OIIOProbe.probe_supported Sample.accepted)
    (Qt.completeSuffix (filename Sample.png)) = true /\
  exists input,
    OIIO.ImageInput_open (Library := Test.library) (filename Sample.png) = Some input /\
    OIIOProbe.format_name (Attributes := Sample.attributes) input <> "FFmpeg movie"%string.
Proof.
  exact (Probe_accepts_iff (L := Test.library) (A := Sample.attributes)
           Sample.png [] [] Sample.accepted eq_refl).
Defined.

Lemma Probe_adds_one_image_stream_witness :
  exists input,
    OIIO.ImageInput_open (Library := Test.library) (filename Sample.png) = Some input /\
    OIIOProbe.probe_streams Sample.accepted =
      [] ++ [OIIOProbe.mkImageStream (OIIO.spec_width (OIIO.input_spec input))
               (OIIO.spec_height (OIIO.input_spec input)) 0 true].
Proof.
  exact (Probe_adds_one_image_stream (L := Test.library) (A := Sample.attributes)
           Sample.png [] [] Sample.accepted eq_refl).
Defined.

Lemma Probe_opens_only_supported_suffix_witness :
  (Qt.contains_ci (OIIOProbe.probe_supported Sample.rejected)
     (Qt.completeSuffix (filename Sample.dotted)) = false ->
   OIIOProbe.probe_ok Sample.rejected = false /\
   OIIOProbe.probe_opened Sample.rejected = []) /\
  (OIIOProbe.probe_opened Sample.rejected = [] \/
   OIIOProbe.probe_opened Sample.rejected = [filename Sample.dotted]).
Proof.
  exact (Probe_opens_only_supported_suffix (L := Test.library) (A := Sample.attributes)
           Sample.dotted [] [] Sample.rejected eq_refl).
Defined.

Lemma supported_formats_filled_once_witness :
  OIIOProbe.probe_supported Sample.accepted <> [] /\
  forall f' streams' r',
    OIIOProbe.Probe (L := Test.library) (A := Sample.attributes) f' streams'
      (OIIOProbe.probe_supported Sample.accepted) = Some r' ->
    OIIOProbe.probe_supported r' = OIIOProbe.probe_supported Sample.accepted.
Proof.
  exact (supported_formats_filled_once (L := Test.library) (A := Sample.attributes)
           Sample.png [] [] Sample.accepted eq_refl).
Defined.

Lemma Probe_attribute_without_colon_witness :
  OIIOProbe.Probe (L := Test.library) (A := Sample.no_attributes) Sample.png [] [] = None.
Proof.
  exact (Probe_attribute_without_colon (L := Test.library) (A := Sample.no_attributes)
           Sample.png [] eq_refl).
Defined.

Lemma Probe_reads_every_extension_witness :
  exists r,
    OIIOProbe.Probe (L := Test.library) (A := Sample.attributes) Sample.png [] [] = Some r /\
    OIIOProbe.probe_supported r = List.concat (map snd Sample.formats).
Proof.
  apply (Probe_reads_every_extension (L := Test.library) (A := Sample.attributes)
           Sample.png [] Sample.formats eq_refl); [discriminate|reflexivity].
Defined.

Lemma Probe_rejects_second_dot_witness :
  OIIOProbe.Probe (L := Test.library) (A := Sample.attributes) Sample.dotted []
    Sample.extensions
  = Some (OIIOProbe.mkProbeResult false [] Sample.extensions []).
Proof.
  apply (Probe_rejects_second_dot (L := Test.library) (A := Sample.attributes)
           Sample.dotted [] Sample.extensions); [discriminate| |reflexivity].
  repeat constructor.
Defined.

(** ** The project's name *)

Section Project_properties.

Import ProjectModel.
Variable tr : string -> string.

Lemma last_Forall {T} (P : T -> Prop) (l : list T) (d : T) :
  Forall P l -> P d -> P (List.last l d).
Proof.
  induction 1 as [|x l Hx Hl IH]; intros Hd; [exact Hd|].
  destruct l; [exact Hx|]. apply IH. exact Hd.
Qed.

Lemma baseName_plain path :
  Qt.contains_char "." (Qt.baseName path) = false /\
  Qt.contains_char "/" (Qt.baseName path) = false.
Proof.
  unfold Qt.baseName.
  assert (Hfile : Qt.contains_char "/" (Qt.fileName path) = false).
  { unfold Qt.fileName. apply last_Forall; [|reflexivity].
    apply split_pieces_without. left. reflexivity. }
  pose proof (split_pieces_without "."%char "."%char (Qt.fileName path)
                (or_introl eq_refl)) as Hdot.
  pose proof (split_pieces_without "."%char "/"%char (Qt.fileName path)
                (or_intror Hfile)) as Hslash.
  destruct (Qt.split "." (Qt.fileName path)) as [|piece pieces]; [split; reflexivity|].
  inversion Hdot; inversion Hslash; subst. simpl. auto.
Qed.

(** X28.  A project shows the translated "(untitled)" while it has no file
    name; once a non-empty file name is set, its name is the part of the file
    name before the first '.', without the directories: it contains neither
    '/' nor '.', and one [NameChanged] has been emitted for the change. *)
Theorem name_is_base_of_filename p s :
  s <> EmptyString ->
  name tr (set_filename s p) = Qt.baseName s /\
  Qt.contains_char "." (name tr (set_filename s p)) = false /\
  Qt.contains_char "/" (name tr (set_filename s p)) = false /\
  name_changed (set_filename s p) = S (name_changed p) /\
  name tr (set_filename EmptyString p) = tr "(untitled)".
Proof.
  intros Hs.
  assert (Hname : name tr (set_filename s p) = Qt.baseName s).
  { unfold name, set_filename; simpl. destruct s; [contradiction|reflexivity]. }
  rewrite Hname. destruct (baseName_plain s) as [Hdot Hslash].
  repeat split; auto.
Qed.

End Project_properties.

Lemma name_is_base_of_filename_witness :
  let p := ProjectModel.set_filename "/home/editor/film.final.ove" Sample.saved in
  ProjectModel.name (fun s => s) p = "film"%string /\
  Qt.contains_char "." (ProjectModel.name (fun s => s) p) = false /\
  Qt.contains_char "/" (ProjectModel.name (fun s => s) p) = false /\
  ProjectModel.name_changed p = 1%nat /\
  ProjectModel.name (fun s => s) (ProjectModel.set_filename "" Sample.saved)
    = "(untitled)"%string.
Proof.
  apply (name_is_base_of_filename (fun s => s) Sample.saved
           "/home/editor/film.final.ove"%string).
  discriminate.
Defined.


(** * The evaluation as a whole *)

(** ** The code against the steps of the spec *)

Section Refinement.

Context {E : WorkerEnv}.

Implicit Types (st : RenderWorker Dec) (range : TimeRange) (node : Node).

Lemma pair_eta {X Y} (p : X * Y) : p = (p.1, p.2).
Proof. destruct p; reflexivity. Qed.

(** What [ProcessNode] returns is what the steps of the spec give, at every
    node of the graph. *)
Lemma ProcessNode_meets_spec node : forall range st,
  spec_evaluates node range st (ProcessNode node range st).1 (ProcessNode node range st).2.
Proof.
  induction node as [nid track params value adjust IH] using Node_graph_ind.
  intros range st. rewrite ProcessNode_unfold.
  destruct track eqn:Htrack; cbn [IsTrack].
  - apply spec_track. reflexivity.
  - unfold GenerateDatabase. cbn [InputTimeAdjustment parameters Value].
    enough (Hloop : forall database st,
               spec_generates adjust range params database st
                 (GenerateDatabase_loop ProcessNode adjust range params database st).1
                 (GenerateDatabase_loop ProcessNode adjust range params database st).2).
    { specialize (Hloop ∅ st).
      destruct (GenerateDatabase_loop ProcessNode adjust range params ∅ st)
        as [database st'].
      apply (spec_node (mkNode nid false params value adjust) range st database st');
        [reflexivity|exact Hloop]. }
    clear st. induction IH as [|param params Hparam _ IHparams]; intros database st.
    + apply spec_done.
    + rewrite loop_cons.
      destruct (IsCancelled st) as [[|] st1] eqn:Hpoll.
      { apply spec_cancelled. exact Hpoll. }
      destruct param as [input|out].
      * rewrite body_input. cbv zeta.
        destruct (ProcessInput_with ProcessNode input (adjust (input_id input) range) st1)
          as [table st2] eqn:Hinput.
        destruct (if decide (data_type input = kFootage)
                  then RetrieveFootage input (adjust (input_id input) range) table st2
                  else (table, st2)) as [table' st3] eqn:Hfootage.
        eapply spec_input; [exact Hpoll| |exact Hfootage|apply IHparams].
        unfold ProcessInput_with in Hinput. simpl in Hparam.
        destruct (get_connected_node input) as [connected|] eqn:Hconn.
        -- eapply spec_connected; [exact Hconn|].
           specialize (Hparam (adjust (input_id input) range) st1).
           rewrite Hinput in Hparam. exact Hparam.
        -- injection Hinput as <- <-. apply spec_literal. exact Hconn.
      * cbn [GenerateDatabase_body]. unfold ret.
        eapply spec_output; [exact Hpoll|apply IHparams].
Qed.

(** And the steps of the spec give nothing else. *)
Lemma spec_is_ProcessNode node : forall range st table st',
  spec_evaluates node range st table st' -> ProcessNode node range st = (table, st').
Proof.
  induction node as [nid track params value adjust IH] using Node_graph_ind.
  intros range st table st' Hspec. rewrite ProcessNode_unfold.
  inversion Hspec as [? ? ? Htrack|? ? ? database ? Htrack Hgen]; subst;
    cbn [IsTrack] in Htrack; subst track; cbn [IsTrack].
  - apply pair_eta.
  - unfold GenerateDatabase. cbn [InputTimeAdjustment parameters Value] in *.
    enough (Hloop : forall database0 st0 database1 st1,
               spec_generates adjust range params database0 st0 database1 st1 ->
               GenerateDatabase_loop ProcessNode adjust range params database0 st0
               = (database1, st1)).
    { rewrite (Hloop _ _ _ _ Hgen). reflexivity. }
    clear Hspec Hgen. induction IH as [|param params Hparam _ IHparams];
      intros database0 st0 database1 st1 Hgen.
    + inversion Hgen; subst. reflexivity.
    + rewrite loop_cons.
      inversion Hgen; subst;
        match goal with Hpoll : IsCancelled _ = _ |- _ => rewrite Hpoll end.
      * reflexivity.
      * cbn [GenerateDatabase_body]. unfold ret. apply IHparams. assumption.
      * rewrite body_input. cbv zeta.
        match goal with
        | Hres : spec_resolves ?input ?r ?s1 ?tbl ?s2,
          Hfootage : _ = (_, _) |- _ =>
          assert (Hinput : ProcessInput_with ProcessNode input r s1 = (tbl, s2));
            [|rewrite Hinput, Hfootage; apply IHparams; assumption];
            unfold ProcessInput_with; simpl in Hparam;
            inversion Hres as [? connected ? ? ? ? Hconn Heval|? ? ? Hconn]; subst;
            rewrite Hconn in *; [apply Hparam; exact Heval|reflexivity]
        end.
Qed.

(** C5.  Resolving a connected Input over a range is evaluating the node it
    is connected to over that range, in the sense of the spec's steps and to
    any depth: what [ProcessInput] returns is what step 3c, "recurse into
    step 1 with the connected Node", gives, and nothing else is; the same
    holds of [ProcessNode] at every node of the graph below.  In the Database
    generation of a node over R the range so passed is
    [InputTimeAdjustment(input, R)], and the Table made of it is the Input's
    entry in the Database handed to the rest of the loop. *)
Theorem ProcessInput_connected_follows_node input connected range st :
  get_connected_node input = Some connected ->
  ProcessInput input range st = ProcessNode connected range st /\
  spec_resolves input range st (ProcessInput input range st).1 (ProcessInput input range st).2 /\
  (forall table st',
      spec_resolves input range st table st' -> ProcessInput input range st = (table, st')) /\
  (forall node R st0,
      spec_evaluates node R st0 (ProcessNode node R st0).1 (ProcessNode node R st0).2 /\
      forall table st', spec_evaluates node R st0 table st' ->
                        ProcessNode node R st0 = (table, st')) /\
  (forall node R rest database st0,
      cancel_signal (polls st0) = false ->
      GenerateDatabase_loop ProcessNode (InputTimeAdjustment node) R
        (kInput input :: rest) database st0 =
      let input_time := InputTimeAdjustment node (input_id input) R in
      let (table, st1) := ProcessNode connected input_time (IsCancelled st0).2 in
      let (table', st2) :=
        if decide (data_type input = kFootage)
        then RetrieveFootage input input_time table st1
        else (table, st1) in
      GenerateDatabase_loop ProcessNode (InputTimeAdjustment node) R rest
        (<[input_id input := table']> database) st2).
Proof.
  intros Hc.
  assert (Hin : forall r s, ProcessInput_with ProcessNode input r s = ProcessNode connected r s).
  { intros r s. unfold ProcessInput_with. rewrite Hc. reflexivity. }
  split; [apply Hin|]. split.
  { unfold ProcessInput. rewrite Hin.
    eapply spec_connected; [exact Hc|]. apply ProcessNode_meets_spec. }
  split.
  { intros table st' Hres. unfold ProcessInput. rewrite Hin.
    inversion Hres as [? connected' ? ? ? ? Hconn Heval|? ? ? Hconn]; subst.
    - assert (connected' = connected) by congruence. subst connected'.
      apply spec_is_ProcessNode. exact Heval.
    - congruence. }
  split.
  { intros node R st0. split; [apply ProcessNode_meets_spec|apply spec_is_ProcessNode]. }
  intros node R rest database st0 Hflag.
  rewrite loop_cons, IsCancelled_eq, Hflag. cbn [snd].
  rewrite body_input. cbv zeta. rewrite Hin.
  destruct (ProcessNode connected _ _) as [table st1].
  destruct (if decide (data_type input = kFootage) then _ else _) as [table' st2].
  reflexivity.
Qed.

End Refinement.

(** ** The footage step, event by event *)

Section Footage_step.

Context {E : WorkerEnv}.

Implicit Types (st : RenderWorker Dec) (range : TimeRange) (node : Node).

(** Whatever way the footage step goes for an Input whose Stream is [s], it
    starts by asking the cache for [s] under the lock, and everything it does
    concerns [s]. *)
Lemma RetrieveFootage_events input input_time table st s :
  ResolveStreamFromInput input = Some s ->
  exists more,
    trace (RetrieveFootage input input_time table st).2 =
      trace st ++ EvLock :: EvCacheGet (Some (stream_addr s)) :: more /\
    Forall (concerns_stream s) more.
Proof.
  intros Hs.
  assert (Hres : exists d st1 mid,
             (ResolveDecoderFromInput (Some s) st = (d, st1)) /\
             trace st1 = trace st ++ EvLock :: EvCacheGet (Some (stream_addr s)) :: mid /\
             Forall (concerns_stream s) mid).
  { destruct (decoder_cache_ st !! Some (stream_addr s)) as [d|] eqn:Hget.
    - rewrite (Resolve_hit s d st Hget). eexists _, _, [_]. split; [reflexivity|].
      split; [reflexivity|]. repeat constructor.
    - destruct (Open (set_stream (CreateFromID (footage_decoder (footage s))) (Some s)))
        as [[|] d'] eqn:Hopen.
      + rewrite (Resolve_miss_opened s d' st Hget Hopen). eexists _, _, [_; _; _; _].
        split; [reflexivity|]. split; [reflexivity|]. repeat constructor.
      + rewrite (Resolve_miss_failed s d' st Hget Hopen). eexists _, _, [_; _; _; _].
        split; [reflexivity|]. split; [reflexivity|]. repeat constructor. }
  destruct Hres as (d & st1 & mid & Hd & Htr & Hmid).
  destruct d as [d|].
  - destruct (decide (GetRetrieveState d (range_out input_time) = kReady)) as [Hr|Hr].
    + rewrite (RetrieveFootage_ready _ _ _ _ _ _ _ Hs Hd Hr). cbn [snd].
      exists (mid ++ [EvGetRetrieveState (Some (stream_addr s)) (range_out input_time);
                      EvRetrieve (Some (stream_addr s)) input_time]).
      split.
      * unfold emit_all, with_cache; simpl. rewrite Htr, <- app_assoc. reflexivity.
      * apply Forall_app. split; [exact Hmid|]. repeat constructor.
    + rewrite (RetrieveFootage_unavailable _ _ _ _ _ _ _ Hs Hd Hr). cbn [snd].
      eexists (mid ++ [_; _]). split.
      * unfold emit_all; simpl. rewrite Htr, <- app_assoc. reflexivity.
      * apply Forall_app. split; [exact Hmid|]. repeat constructor.
  - rewrite (RetrieveFootage_no_decoder _ _ _ _ _ _ Hs Hd). cbn [snd].
    exists mid. split; [exact Htr|exact Hmid].
Qed.



(** C9.  In the Database generation of a node, whatever the range asked for,
    the adjusted sub-range, and whether or not the Input is connected, the
    Stream of a footage Input is the one its own stored value holds at time
    0: if that is the Stream [s], it is for [s] that the decoder cache is
    asked and every call that follows in the turn of this Input is on [s]'s
    decoder; if that value holds no Stream, no cache or decoder is touched
    and the Table goes into the Database as [ProcessInput] made it. *)
Theorem footage_stream_sampled_at_zero
  node range input rest database st table st1 :
  cancel_signal (polls st) = false ->
  data_type input = kFootage ->
  ProcessInput input (InputTimeAdjustment node (input_id input) range) (IsCancelled st).2
    = (table, st1) ->
  (forall s,
      get_value_at_time input (rational_of_int 0) = QStreamPtr (Some s) ->
      exists table' st2 more,
        GenerateDatabase_loop ProcessNode (InputTimeAdjustment node) range
          (kInput input :: rest) database st =
        GenerateDatabase_loop ProcessNode (InputTimeAdjustment node) range rest
          (<[input_id input := table']> database) st2 /\
        trace st2 = trace st1 ++ EvLock :: EvCacheGet (Some (stream_addr s)) :: more /\
        Forall (concerns_stream s) more) /\
  ((forall s, get_value_at_time input (rational_of_int 0) <> QStreamPtr (Some s)) ->
   GenerateDatabase_loop ProcessNode (InputTimeAdjustment node) range
     (kInput input :: rest) database st =
   GenerateDatabase_loop ProcessNode (InputTimeAdjustment node) range rest
     (<[input_id input := table]> database) st1).
Proof.
  intros Hflag Hty Hinput.
  assert (Hturn : GenerateDatabase_loop ProcessNode (InputTimeAdjustment node) range
                    (kInput input :: rest) database st =
                  let (table', st2) :=
                    RetrieveFootage input (InputTimeAdjustment node (input_id input) range)
                      table st1 in
                  GenerateDatabase_loop ProcessNode (InputTimeAdjustment node) range rest
                    (<[input_id input := table']> database) st2).
  { rewrite loop_cons. rewrite IsCancelled_eq in *. rewrite Hflag in *. cbn [snd] in Hinput.
    rewrite body_input. cbv zeta. unfold ProcessInput in Hinput. rewrite Hinput.
    destruct (decide (data_type input = kFootage)) as [_|Hne]; [|contradiction].
    destruct (RetrieveFootage _ _ _ _); reflexivity. }
  split.
  - intros s Hvalue.
    assert (Hs : ResolveStreamFromInput input = Some s).
    { unfold ResolveStreamFromInput. rewrite Hvalue. reflexivity. }
    destruct (RetrieveFootage_events input
                (InputTimeAdjustment node (input_id input) range) table st1 s Hs)
      as (more & Htr & Hmore).
    rewrite Hturn.
    destruct (RetrieveFootage _ _ _ _) as [table' st2]. exists table', st2, more. auto.
  - intros Hnone.
    assert (Hs : ResolveStreamFromInput input = None).
    { unfold ResolveStreamFromInput.
      destruct (get_value_at_time input (rational_of_int 0)) as [| | | | |[s|]|] eqn:Hv;
        try reflexivity. exfalso. exact (Hnone s eq_refl). }
    rewrite Hturn, (RetrieveFootage_no_stream _ _ _ _ Hs). reflexivity.
Qed.

End Footage_step.

(** ** Cancellation over a whole evaluation *)

Section Cancellation.

Context {E : WorkerEnv}.

Implicit Types (st : RenderWorker Dec) (range : TimeRange) (node : Node).














End Cancellation.

(** ** Footage inside a Render *)

Section Footage_in_Render.

Context {E : WorkerEnv}.

Implicit Types (st : RenderWorker Dec) (range : TimeRange) (node : Node).

Hypothesis RenderBlock_keeps_path :
  forall node range st, path_ (RenderBlock node range st).2 = path_ st.

Lemma body_keeps_path adjust range param database st :
  path_ (GenerateDatabase_body ProcessNode adjust range param database st).2 = path_ st.
Proof.
  destruct param as [input|out]; [|reflexivity].
  rewrite body_input. cbv zeta.
  assert (Hinput : path_ (ProcessInput_with ProcessNode input
                            (adjust (input_id input) range) st).2 = path_ st).
  { unfold ProcessInput_with. destruct (get_connected_node input) as [connected|].
    - apply ProcessNode_keeps_path. exact RenderBlock_keeps_path.
    - reflexivity. }
  destruct (ProcessInput_with ProcessNode input _ st) as [table st1]. cbn [snd] in Hinput.
  destruct (decide (data_type input = kFootage)).
  - pose proof (RetrieveFootage_keeps_path input (adjust (input_id input) range) table st1)
      as Hf.
    destruct (RetrieveFootage _ _ _ _). cbn [snd] in *. congruence.
  - exact Hinput.
Qed.

Lemma loop_reaches_keeps_path adjust range params database st params' database' st' :
  loop_reaches ProcessNode adjust range params database st params' database' st' ->
  path_ st' = path_ st.
Proof.
  induction 1 as [|param rest database st st1 database1 st2 ps' db' st' Hc Hb _ IH].
  - reflexivity.
  - rewrite IH.
    pose proof (body_keeps_path adjust range param database st1) as Hbody.
    rewrite Hb in Hbody. cbn [snd] in Hbody. rewrite Hbody.
    rewrite IsCancelled_eq in Hc. injection Hc as _ <-. reflexivity.
Qed.

Lemma evaluation_reaches_keeps_path node range st node' range' params' database' st' :
  evaluation_reaches node range st node' range' params' database' st' ->
  path_ st' = path_ st.
Proof.
  induction 1 as [node range st params database st' _ Hloop
                 |node range st input rest database st1 st2 connected
                    node' range' params' database' st' _ Hloop Hpoll _ _ IH].
  - exact (loop_reaches_keeps_path _ _ _ _ _ _ _ _ Hloop).
  - rewrite IH. rewrite IsCancelled_eq in Hpoll. injection Hpoll as _ <-. simpl.
    exact (loop_reaches_keeps_path _ _ _ _ _ _ _ _ Hloop).
Qed.

(** C3, as the code has it.  Inside [Render] of a Descriptor, when the
    Database generation of a node over a range, at whatever depth below the
    Descriptor's node, comes to a footage Input whose Stream and Decoder
    resolve, the worker asks the Decoder's state at the end of the adjusted
    sub-range [InputTimeAdjustment(input, range)].  Ready: it asks for the
    frame over the sub-range and, if a frame comes back, the Input's Table in
    the Database is what [FrameToValue] makes of the Table [ProcessInput]
    gave; if none comes back that Table is left as it was.  Not ready:
    [FootageUnavailable] is emitted with the Stream, the state, the range of
    the Descriptor given to [Render] and the end of the sub-range, and the
    Table is left as it was.  [RenderBlock], which a backend supplies, is
    taken not to write the worker's private path. *)
Theorem footage_ready_or_unavailable
  path st0 node range input rest database st table st1 s d st2 :
  evaluation_reaches (dep_node path) (dep_range path) (set_path path st0).2
    node range (kInput input :: rest) database st ->
  cancel_signal (polls st) = false ->
  data_type input = kFootage ->
  ProcessInput input (InputTimeAdjustment node (input_id input) range) (IsCancelled st).2
    = (table, st1) ->
  ResolveStreamFromInput input = Some s ->
  ResolveDecoderFromInput (Some s) st1 = (Some d, st2) ->
  let input_time := InputTimeAdjustment node (input_id input) range in
  let state := GetRetrieveState d (range_out input_time) in
  let key := Some (stream_addr s) in
  exists table' st3,
    GenerateDatabase_loop ProcessNode (InputTimeAdjustment node) range
      (kInput input :: rest) database st =
    GenerateDatabase_loop ProcessNode (InputTimeAdjustment node) range rest
      (<[input_id input := table']> database) st3 /\
    (state = kReady ->
       table' = match (RetrieveFromDecoder d input_time).1 with
                | Some frame => FrameToValue s frame table
                | None => table
                end /\
       trace st3 = trace st2 ++ [EvGetRetrieveState key (range_out input_time);
                                 EvRetrieve key input_time]) /\
    (state <> kReady ->
       table' = table /\
       trace st3 = trace st2 ++
         [EvGetRetrieveState key (range_out input_time);
          EvFootageUnavailable (Some s) state (dep_range path) (range_out input_time)]).
Proof.
  intros Hreach Hflag Hty Hinput Hs Hd input_time state key.
  subst key state input_time.
  assert (Hpath : path_ st2 = Some path).
  { destruct (Resolve_frame s st1) as (_ & _ & _ & Hp & _).
    rewrite Hd in Hp. cbn [snd] in Hp. rewrite Hp.
    assert (Hst1 : path_ st1 = path_ (IsCancelled st).2).
    { unfold ProcessInput, ProcessInput_with in Hinput.
      destruct (get_connected_node input) as [connected|].
      - pose proof (ProcessNode_keeps_path RenderBlock_keeps_path connected
                      (InputTimeAdjustment node (input_id input) range)
                      (IsCancelled st).2) as Hp1.
        rewrite Hinput in Hp1. exact Hp1.
      - injection Hinput as _ <-. reflexivity. }
    rewrite Hst1, IsCancelled_eq. cbn [snd path_].
    rewrite (evaluation_reaches_keeps_path _ _ _ _ _ _ _ _ Hreach). reflexivity. }
  assert (Hturn : GenerateDatabase_loop ProcessNode (InputTimeAdjustment node) range
                    (kInput input :: rest) database st =
                  let (table', st3) :=
                    RetrieveFootage input (InputTimeAdjustment node (input_id input) range)
                      table st1 in
                  GenerateDatabase_loop ProcessNode (InputTimeAdjustment node) range rest
                    (<[input_id input := table']> database) st3).
  { rewrite loop_cons. rewrite IsCancelled_eq in *. rewrite Hflag in *. cbn [snd] in Hinput.
    rewrite body_input. cbv zeta. unfold ProcessInput in Hinput.
    rewrite Hinput.
    destruct (decide (data_type input = kFootage)) as [_|Hne]; [|contradiction].
    destruct (RetrieveFootage _ _ _ _); reflexivity. }
  destruct (decide (GetRetrieveState d
                      (range_out (InputTimeAdjustment node (input_id input) range))
                    = kReady)) as [Hr|Hr].
  - rewrite Hturn, (RetrieveFootage_ready _ _ _ _ _ _ _ Hs Hd Hr).
    eexists _, _. split; [reflexivity|]. split; [|contradiction].
    intros _. split; reflexivity.
  - rewrite Hturn, (RetrieveFootage_unavailable _ _ _ _ _ _ _ Hs Hd Hr).
    eexists _, _. split; [reflexivity|]. split; [contradiction|].
    intros _. split; [reflexivity|]. simpl. unfold path_range. rewrite Hpath. reflexivity.
Qed.

End Footage_in_Render.

(** ** The evaluation as a whole, at work *)

(** [Render] of [retimed] over [10, 20): the footage Input sits one node
    down, is asked for [12, 15), and its decoder is not ready. *)
Lemma footage_ready_or_unavailable_witness :
  exists table' st3,
    GenerateDatabase_loop (E := Test.env Test.never) ProcessNode Test.same Scenes.range_12_15
      [kInput (Test.footage_input 1 Test.slow); kOutput 2] ∅ Scenes.at_footage =
    GenerateDatabase_loop (E := Test.env Test.never) ProcessNode Test.same Scenes.range_12_15
      [kOutput 2] (<[1%nat := table']> ∅) st3 /\
    table' = [(kFootage, QStreamPtr (Some Test.slow))] /\
    trace st3 =
      [EvIsCancelled false; EvIsCancelled false;
       EvLock; EvCacheGet (Some 103%nat); EvCreateFromID "indexing";
       EvOpen (Some 103%nat) true; EvCacheAdd (Some 103%nat); EvUnlock;
       EvGetRetrieveState (Some 103%nat) (rational_of_int 15);
       EvFootageUnavailable (Some Test.slow) kNotReady Test.range_10_20 (rational_of_int 15)].
Proof.
  destruct (footage_ready_or_unavailable (E := Test.env Test.never)
              (fun node range st => eq_refl)
              Scenes.retimed_path Test.fresh (Test.media 1 Test.slow) Scenes.range_12_15
              (Test.footage_input 1 Test.slow) [kOutput 2] ∅ Scenes.at_footage
              [(kFootage, QStreamPtr (Some Test.slow))]
              (mkRenderWorker true ∅ (Some Scenes.retimed_path) 2
                 [EvIsCancelled false; EvIsCancelled false])
              Test.slow (Test.mkTestDecoder "indexing" (Some Test.slow) true)
              (mkRenderWorker true
                 (<[Some 103%nat := Test.mkTestDecoder "indexing" (Some Test.slow) true]> ∅)
                 (Some Scenes.retimed_path) 2
                 [EvIsCancelled false; EvIsCancelled false;
                  EvLock; EvCacheGet (Some 103%nat); EvCreateFromID "indexing";
                  EvOpen (Some 103%nat) true; EvCacheAdd (Some 103%nat); EvUnlock]))
    as (table' & st3 & Hloop & _ & Hnot); try reflexivity.
  - eapply (reaches_below Scenes.retimed Test.range_10_20);
      [reflexivity | apply reaches_here | reflexivity | reflexivity |].
    apply reaches_in_node; [reflexivity | apply reaches_here].
  - destruct Hnot as [Htable Htrace]; [discriminate|].
    exists table', st3. split; [exact Hloop|]. split; [exact Htable|exact Htrace].
Defined.

Lemma ProcessInput_connected_follows_node_witness :
  let input :=
    mkNodeInput 7 kTexture (fun _ => QInvalid) (Some (Test.media 1 Test.slow)) in
  ProcessInput (E := Test.env Test.never) input Scenes.range_12_15 Test.fresh
    = ProcessNode (E := Test.env Test.never) (Test.media 1 Test.slow) Scenes.range_12_15
        Test.fresh /\
  spec_resolves (E := Test.env Test.never) input Scenes.range_12_15 Test.fresh
    (ProcessInput (E := Test.env Test.never) input Scenes.range_12_15 Test.fresh).1
    (ProcessInput (E := Test.env Test.never) input Scenes.range_12_15 Test.fresh).2.
Proof.
  destruct (ProcessInput_connected_follows_node (E := Test.env Test.never)
              (mkNodeInput 7 kTexture (fun _ => QInvalid) (Some (Test.media 1 Test.slow)))
              (Test.media 1 Test.slow) Scenes.range_12_15 Test.fresh eq_refl)
    as (Heq & Hspec & _).
  split; [exact Heq|exact Hspec].
Defined.


(** The Input stores [clip] at time 0 and [movie] elsewhere, is connected,
    and is asked for [12, 15): the cache is asked for [clip]. *)
Lemma footage_stream_sampled_at_zero_witness :
  exists table' st2 more,
    GenerateDatabase_loop (E := Test.env Test.never) ProcessNode
      (InputTimeAdjustment Scenes.keyed) Test.range_10_20
      [kInput Scenes.keyed_input; kOutput 2] ∅ Test.fresh =
    GenerateDatabase_loop (E := Test.env Test.never) ProcessNode
      (InputTimeAdjustment Scenes.keyed) Test.range_10_20 [kOutput 2]
      (<[1%nat := table']> ∅) st2 /\
    trace st2 =
      [EvIsCancelled false; EvIsCancelled false] ++
      EvLock :: EvCacheGet (Some 100%nat) :: more /\
    Forall (concerns_stream Test.clip) more.
Proof.
  exact (proj1 (footage_stream_sampled_at_zero (E := Test.env Test.never)
                  Scenes.keyed Test.range_10_20 Scenes.keyed_input [kOutput 2] ∅ Test.fresh
                  [(kInt, QInt 1)]
                  (mkRenderWorker true ∅ None 2 [EvIsCancelled false; EvIsCancelled false])
                  eq_refl eq_refl eq_refl)
           Test.clip eq_refl).
Defined.
